(** * TalentBridge: the retrieval and event-planning core of [app.py]

    A shallow embedding of the text classifier ([detect_event_type],
    [extract_budget_from_text], [extract_filters]), of the retrieval engine
    ([apply_filters], [rag_search]), of the planning engine
    ([generate_event_plan] and its tables) and of the card helper
    ([_format_cards]), followed by the properties of these functions.

    Conventions.
    - Text is a [string] of bytes.  [lower] maps the ASCII letters [A]-[Z] to
      [a]-[z] and leaves every other byte alone; on the labels and keywords of
      the program (ASCII words and caseless symbols) this is Python's
      [str.lower].
    - A Python [int] is a [Z]; a Python [float] is the rational number it
      denotes, and every floating-point operation is the exact operation
      followed by [rnd], rounding to the nearest binary64 value, ties to even.
    - A Python exception is [None] in an [option] result.
    - [int] on a numeral is the number it writes.  An interpreter that
      limits the digits [int] converts (4300 unless configured, and never
      fewer than 640) raises [ValueError] past the limit: a property that
      needs [int] to return is stated for a text of at most 640 characters.
      Python's [\d], [str.isdigit] and [str.lower] also know the digits and
      letters outside ASCII: a property that depends on which characters
      are digits is stated for ASCII text. *)

From Stdlib Require Import ZArith QArith Qround Qabs Qpower Lqa Lia Bool List.
From Stdlib Require Import Ascii String Sorting.Sorted Sorting.Permutation.
From Stdlib Require Import Floats.PrimFloat Floats.SpecFloat Floats.FloatOps Uint63.
From Stdlib Require Import DecimalString.
Import ListNotations.

Set Implicit Arguments.

(* ================================================================= *)
(** ** Text *)

Module Text.

Local Open Scope nat_scope.

Definition is_upper (c : ascii) : bool :=
  let n := nat_of_ascii c in (65 <=? n) && (n <=? 90).

Definition lower_ascii (c : ascii) : ascii :=
  if is_upper c then ascii_of_nat (nat_of_ascii c + 32) else c.

Definition is_lower (c : ascii) : bool :=
  let n := nat_of_ascii c in (97 <=? n) && (n <=? 122).

Definition upper_ascii (c : ascii) : ascii :=
  if is_lower c then ascii_of_nat (nat_of_ascii c - 32) else c.

(** [str.lower()] *)
Fixpoint lower (s : string) : string :=
  match s with
  | EmptyString => EmptyString
  | String c s' => String (lower_ascii c) (lower s')
  end.

(** [str.capitalize()]: first character upper-cased, the rest lower-cased. *)
Definition capitalize (s : string) : string :=
  match s with
  | EmptyString => EmptyString
  | String c s' => String (upper_ascii c) (lower s')
  end.

(** [w in t] on strings: [w] occurs in [t] as a contiguous substring. *)
Fixpoint contains (w t : string) : bool :=
  if prefix w t then true
  else match t with
       | EmptyString => false
       | String _ t' => contains w t'
       end.

(** [any(w in t for w in ws)] *)
Definition any_in (ws : list string) (t : string) : bool :=
  existsb (fun w => contains w t) ws.

(** [s.replace(",", "")] on a list of characters. *)
Definition strip_commas (s : list ascii) : list ascii :=
  filter (fun c => negb (Ascii.eqb c ","%char)) s.

Definition is_digit (c : ascii) : bool :=
  let n := nat_of_ascii c in (48 <=? n) && (n <=? 57).

Definition digit_val (c : ascii) : Z := Z.of_nat (nat_of_ascii c - 48).

(** [int(raw)] for a string of decimal digits. *)
Definition int_of_digits (s : list ascii) : Z :=
  fold_left (fun acc c => (10 * acc + digit_val c)%Z) s 0%Z.

End Text.

(* ================================================================= *)
(** ** Regular expressions, as [re.search] runs them

    The fragment of Python's [re] the program uses: literals, character
    classes, concatenation, ordered alternation, greedy [*], [{n,}] and [?],
    and one capturing group.  Matching is by backtracking, the greedy
    alternatives first, as in [re]; [search] returns the leftmost match. *)

Module Re.

Inductive regex : Type :=
| Eps
| Lit (c : ascii)
| Class (p : ascii -> bool)
| Seq (r1 r2 : regex)
| Alt (r1 r2 : regex)
| Star (p : ascii -> bool)
| Opt (r : regex)
| Group (r : regex).

(** The text consumed between [s] and its suffix [rest]. *)
Definition consumed (s rest : list ascii) : list ascii :=
  firstn (List.length s - List.length rest) s.

Definition lit_eqb (icase : bool) (c d : ascii) : bool :=
  if icase then Ascii.eqb (Text.lower_ascii c) (Text.lower_ascii d)
  else Ascii.eqb c d.

Section Matcher.
Variable icase : bool.
Variable R : Type.

(** [rmatch r s cap k]: match [r] at the head of [s]; on success hand the
    rest of the text and the capture to the continuation [k]; when the
    continuation fails, backtrack into [r]. *)
Fixpoint rmatch (r : regex) (s : list ascii) (cap : option (list ascii))
         (k : list ascii -> option (list ascii) -> option R) : option R :=
  match r with
  | Eps => k s cap
  | Lit c =>
      match s with
      | d :: s' => if lit_eqb icase c d then k s' cap else None
      | [] => None
      end
  | Class p =>
      match s with
      | d :: s' => if p d then k s' cap else None
      | [] => None
      end
  | Seq r1 r2 => rmatch r1 s cap (fun s1 cap1 => rmatch r2 s1 cap1 k)
  | Alt r1 r2 =>
      match rmatch r1 s cap k with
      | Some x => Some x
      | None => rmatch r2 s cap k
      end
  | Star p =>
      (fix star (t : list ascii) : option R :=
         match t with
         | d :: t' =>
             if p d then
               match star t' with
               | Some x => Some x
               | None => k t cap
               end
             else k t cap
         | [] => k [] cap
         end) s
  | Opt r1 =>
      match rmatch r1 s cap k with
      | Some x => Some x
      | None => k s cap
      end
  | Group r1 => rmatch r1 s cap (fun rest _ => k rest (Some (consumed s rest)))
  end.
End Matcher.

(** A match object: [group(0)] and [group(1)]. *)
Record rmatch_obj : Type := MatchObj {
  group0 : list ascii;
  group1 : list ascii
}.

Definition match_at (icase : bool) (r : regex) (s : list ascii) : option rmatch_obj :=
  rmatch icase r s None
    (fun rest cap =>
       Some (MatchObj (consumed s rest)
                      (match cap with Some g => g | None => [] end))).

(** [re.search(r, s)]: the match at the leftmost position that has one. *)
Fixpoint search_from (icase : bool) (r : regex) (s : list ascii) : option rmatch_obj :=
  match match_at icase r s with
  | Some m => Some m
  | None =>
      match s with
      | [] => None
      | _ :: s' => search_from icase r s'
      end
  end.

Definition search (icase : bool) (r : regex) (text : string) : option rmatch_obj :=
  search_from icase r (list_ascii_of_string text).

(** Concrete syntax helpers. *)
Fixpoint lit (s : string) : regex :=
  match s with
  | EmptyString => Eps
  | String c s' => Seq (Lit c) (lit s')
  end.

(** [p{n,}] *)
Fixpoint at_least (n : nat) (p : ascii -> bool) : regex :=
  match n with
  | O => Star p
  | S n' => Seq (Class p) (at_least n' p)
  end.

(** [\d], [[\d,]], [\s], [[kK]] *)
Definition digit : ascii -> bool := Text.is_digit.
Definition digit_or_comma (c : ascii) : bool :=
  Text.is_digit c || Ascii.eqb c ","%char.
Definition space (c : ascii) : bool :=
  let n := nat_of_ascii c in
  ((9 <=? n) && (n <=? 13) || (28 <=? n) && (n <=? 32))%nat.
Definition kK (c : ascii) : bool :=
  Ascii.eqb c "k"%char || Ascii.eqb c "K"%char.

End Re.

Declare Scope re_scope.
Delimit Scope re_scope with re.
Infix "++" := Re.Seq (right associativity, at level 60) : re_scope.
Infix "<|>" := Re.Alt (right associativity, at level 70) : re_scope.

(* ================================================================= *)
(** ** Text classifier *)

Import Text.
Local Open Scope string_scope.
Local Open Scope list_scope.

(** The captured numeral of the patterns: a digit, then digits and commas. *)
Definition numeral : Re.regex :=
  Re.Group (Re.Class Re.digit ++ Re.Star Re.digit_or_comma)%re.

(** [(?:dollar|usd|budget)] *)
Definition unit_word : Re.regex :=
  (Re.lit "dollar" <|> Re.lit "usd" <|> Re.lit "budget")%re.

(** The five patterns of [extract_budget_from_text], each with its [is_k]. *)
Definition budget_patterns : list (Re.regex * bool) :=
  [ (* \$ ( \d [\d,]* ) [kK] *)
    ((Re.Lit "$" ++ numeral ++ Re.Class Re.kK)%re, true);
    (* ( \d [\d,]* ) [kK] \s* (?:dollar|usd|budget)? *)
    ((numeral ++ Re.Class Re.kK ++ Re.Star Re.space ++ Re.Opt unit_word)%re, true);
    (* \$ ( \d [\d,]* ) *)
    ((Re.Lit "$" ++ numeral)%re, false);
    (* ( \d [\d,]{2,} ) \s* (?:dollar|usd|budget) *)
    ((Re.Group (Re.Class Re.digit ++ Re.at_least 2 Re.digit_or_comma)
        ++ Re.Star Re.space ++ unit_word)%re, false);
    (* budget \s+ (?:of|is|:)? \s* \$? ( \d [\d,]* ) *)
    ((Re.lit "budget" ++ Re.Class Re.space ++ Re.Star Re.space
        ++ Re.Opt (Re.lit "of" <|> Re.lit "is" <|> Re.lit ":")
        ++ Re.Star Re.space ++ Re.Opt (Re.Lit "$") ++ numeral)%re, false) ].

(** [int(m.group(1).replace(",", ""))], times 1000 under [is_k]; the value
    of [int] where it returns, which it does on every numeral of at most
    640 digits. *)
Definition parse_amount (m : Re.rmatch_obj) (is_k : bool) : Z :=
  let val := int_of_digits (strip_commas (Re.group1 m)) in
  if is_k then (val * 1000)%Z else val.

(** One turn of the loop of [extract_budget_from_text]: [Some val] when the
    turn executes [return val], [None] when it falls through to the next
    pattern. *)
Definition try_pattern (text : string) (p : Re.regex * bool) : option Z :=
  match Re.search true (fst p) text with
  | Some m =>
      let val := parse_amount m (snd p) in
      if (100 <=? val)%Z then Some val else None
  | None => None
  end.

Fixpoint first_return (text : string) (ps : list (Re.regex * bool)) : option Z :=
  match ps with
  | [] => None
  | p :: ps' =>
      match try_pattern text p with
      | Some v => Some v
      | None => first_return text ps'
      end
  end.

Definition extract_budget_from_text (text : string) : option Z :=
  first_return text budget_patterns.

(** [detect_event_type] *)
Definition detect_event_type (text : string) : string :=
  let t := lower text in
  if any_in ["wedding"; "marriage"; "bride"; "groom"; "nuptial"] t then "wedding"
  else if any_in ["corporate"; "company"; "office"; "conference"; "business";
                  "launch"; "product launch"] t then "corporate"
  else if any_in ["birthday"; "bday"; "birth day"] t then "birthday"
  else if any_in ["festival"; "fest"; "music festival"] t then "festival"
  else if any_in ["gala"; "charity"; "fundraiser"; "award"; "black tie"] t then "gala"
  else if any_in ["concert"; "live show"; "performance night"] t then "concert"
  else if any_in ["party"; "celebration"; "get together"; "house party"] t then "party"
  else "default".

(** The filter set: a dict whose keys may be absent. *)
Record filters : Type := Filters {
  max_budget : option Z;
  city : option string;
  category_f : option string
}.

Definition no_filters : filters := Filters None None None.

Definition cities : list string :=
  ["new york"; "chicago"; "los angeles"; "houston"; "miami";
   "atlanta"; "dallas"; "seattle"; "boston"; "nashville";
   "las vegas"; "detroit"; "new orleans"; "san francisco"].

Definition cats : list string :=
  ["singer"; "dancer"; "musician"; "painter"; "photographer"; "dj"; "performer"].

(** [extract_filters]; [int] as in [parse_amount]: its value where it
    returns. *)
Definition extract_filters (text : string) : filters :=
  let budget :=
    (* \$ ( \d [\d,]* ) [kK]? , without IGNORECASE *)
    match Re.search false (Re.Lit "$" ++ numeral ++ Re.Opt (Re.Class Re.kK))%re text with
    | Some m =>
        let val := int_of_digits (strip_commas (Re.group1 m)) in
        let val := if contains "k" (lower (string_of_list_ascii (Re.group0 m)))
                   then (val * 1000)%Z else val in
        if (100 <=? val)%Z then Some val else None
    | None => None
    end in
  let tl := lower text in
  Filters budget
          (find (fun c => contains c tl) cities)
          (option_map capitalize (find (fun c => contains c tl) cats)).


(* ================================================================= *)
(** ** Binary64 arithmetic

    A finite Python [float] is the rational it denotes.  [rnd] rounds a
    rational to the nearest binary64 value, ties to even: 53 significant
    bits, exponent of the last bit no smaller than -1074.  An operation
    whose rounded result reaches [2^1024] has no finite result: [None].
    Where the program converts such a result to an [int] ([round], [int]),
    Python raises [OverflowError], which [None] stands for as well. *)

Module Float64.

Local Open Scope Q_scope.

(** [floor (log2 x)] for [0 < x]. *)
Definition ilog2 (x : Q) : Z :=
  let n := Qnum x in
  let d := Z.pos (Qden x) in
  let k := (Z.log2 n - Z.log2 d)%Z in
  if (d * 2 ^ Z.max k 0 <=? n * 2 ^ Z.max (- k) 0)%Z then k else (k - 1)%Z.

(** Rounding to the nearest integer, ties to the even one: Python's
    [round(x)] on a float, and the rounding of a significand. *)
Definition round_half_even (x : Q) : Z :=
  let f := Qfloor x in
  match Qcompare (x - inject_Z f) (1 # 2) with
  | Lt => f
  | Gt => (f + 1)%Z
  | Eq => if Z.even f then f else (f + 1)%Z
  end.

(** Truncation toward zero: Python's [int(x)] on a float. *)
Definition trunc (x : Q) : Z :=
  if Qle_bool 0 x then Qfloor x else Qceiling x.

(** The exponent of the last place of the binary64 values around [x]. *)
Definition ulp_exp (x : Q) : Z := Z.max (ilog2 x - 52) (-1074).

Definition rnd_pos (x : Q) : Q :=
  let e := ulp_exp x in
  inject_Z (round_half_even (x / 2 ^ e)) * 2 ^ e.

(** Fractions are reduced on the way in and on the way out, so that equal
    rationals round to the same term. *)
Definition rnd (x : Q) : Q :=
  let x := Qred x in
  Qred (match Qcompare x 0 with
        | Eq => 0
        | Gt => rnd_pos x
        | Lt => - rnd_pos (- x)
        end).

Definition is_finite (x : Q) : bool := negb (Qle_bool (2 ^ 1024) (Qabs x)).

Definition checked (x : Q) : option Q :=
  if is_finite x then Some x else None.

(** A decimal literal of the source, [0.30]. *)
Definition literal (d : Q) : Q := rnd d.

(** [float(n)] for an [int]; [OverflowError] beyond the range. *)
Definition of_int (n : Z) : option Q := checked (rnd (inject_Z n)).

Definition mul (x y : Q) : option Q := checked (rnd (x * y)).
Definition add (x y : Q) : option Q := checked (rnd (x + y)).

(** [n * x] for an [int] [n] and a float [x]. *)
Definition int_mul (n : Z) (x : Q) : option Q :=
  match of_int n with
  | Some nf => mul nf x
  | None => None
  end.

(** [round(n * x)] and [int(n * x)]. *)
Definition round_int_mul (n : Z) (x : Q) : option Z :=
  option_map round_half_even (int_mul n x).

Definition int_int_mul (n : Z) (x : Q) : option Z :=
  option_map trunc (int_mul n x).

(** [sum(xs)] over floats, from the [int] 0, left to right. *)
Fixpoint sum_from (acc : Q) (xs : list Q) : option Q :=
  match xs with
  | [] => Some acc
  | x :: xs' =>
      match add acc x with
      | Some acc' => sum_from acc' xs'
      | None => None
      end
  end.

Definition sum (xs : list Q) : option Q := sum_from 0 xs.

(** The unit roundoff, and half of the smallest positive binary64 value. *)
Definition u : Q := 2 ^ (-53).
Definition eta : Q := 2 ^ (-1075).

(** [round(n * x)] when the product is finite. *)
Definition amount (n : Z) (x : Q) : Z :=
  round_half_even (rnd (rnd (inject_Z n) * x)).

(** The rational a [spec_float] denotes, to compare [rnd] with the
    kernel's floats. *)
Definition SF2Q (f : spec_float) : option Q :=
  match f with
  | S754_zero _ => Some 0
  | S754_finite s m e =>
      let v := inject_Z (Z.pos m) * 2 ^ e in
      Some (if s then - v else v)
  | _ => None
  end.

End Float64.

Abbreviation flt := Float64.literal.
Arguments Float64.literal d%_Q.

(* ================================================================= *)
(** ** Catalog *)

(** A provider record of [artists.json], with the fields the core reads. *)
Record artist : Type := Artist {
  id : Z;
  name : string;
  category : string;
  location : string;
  skills : list string;
  price_min : Z;
  price_max : Z;
  rating : Q;
  event_types : list string;
  bio : string;
  badge : option string;
  avatar : string
}.

Definition list_eqb {A} (eqb : A -> A -> bool) : list A -> list A -> bool :=
  fix go (l1 l2 : list A) : bool :=
    match l1, l2 with
    | [], [] => true
    | x :: l1', y :: l2' => eqb x y && go l1' l2'
    | _, _ => false
    end.

Definition option_eqb {A} (eqb : A -> A -> bool) (o1 o2 : option A) : bool :=
  match o1, o2 with
  | None, None => true
  | Some x, Some y => eqb x y
  | _, _ => false
  end.

(** [a == b] on two records: the same keys with equal values; numbers are
    compared by value. *)
Definition artist_eqb (a b : artist) : bool :=
  Z.eqb (id a) (id b) && String.eqb (name a) (name b)
  && String.eqb (category a) (category b)
  && String.eqb (location a) (location b)
  && list_eqb String.eqb (skills a) (skills b)
  && Z.eqb (price_min a) (price_min b) && Z.eqb (price_max a) (price_max b)
  && Qeq_bool (rating a) (rating b)
  && list_eqb String.eqb (event_types a) (event_types b)
  && String.eqb (bio a) (bio b)
  && option_eqb String.eqb (badge a) (badge b)
  && String.eqb (avatar a) (avatar b).

(** [a in l] on a list of records. *)
Definition artist_in (a : artist) (l : list artist) : bool :=
  existsb (artist_eqb a) l.

(** [l[:k]] for a Python [int] [k]: a negative [k] counts from the end. *)
Definition py_prefix {A} (k : Z) (l : list A) : list A :=
  if (0 <=? k)%Z then firstn (Z.to_nat k) l
  else firstn (List.length l - Z.to_nat (- k)) l.

(** [l.sort(key=lambda x: x["rating"], reverse=True)]: a stable sort, the
    highest rating first; records of equal rating keep their order. *)
Fixpoint insert_by_rating (x : artist) (l : list artist) : list artist :=
  match l with
  | [] => [x]
  | y :: l' =>
      if Qle_bool (rating y) (rating x) then x :: y :: l'
      else y :: insert_by_rating x l'
  end.

Definition sort_by_rating_desc (l : list artist) : list artist :=
  fold_right insert_by_rating [] l.

(* ================================================================= *)
(** ** Dictionaries in insertion order *)

Definition dict (V : Type) : Type := list (string * V).

Fixpoint dict_get {V} (d : dict V) (k : string) : option V :=
  match d with
  | [] => None
  | (k', v) :: d' => if String.eqb k k' then Some v else dict_get d' k
  end.

(** [d.get(k, d["default"])]: the default is evaluated first and a table
    without a ["default"] key raises [KeyError]. *)
Definition get_or_default {V} (d : dict V) (k : string) : option V :=
  match dict_get d "default" with
  | Some dflt => Some (match dict_get d k with Some v => v | None => dflt end)
  | None => None
  end.

(** [d[k] = v]: an existing key keeps its place. *)
Fixpoint dict_set {V} (d : dict V) (k : string) (v : V) : dict V :=
  match d with
  | [] => [(k, v)]
  | (k', v') :: d' =>
      if String.eqb k k' then (k', v) :: d' else (k', v') :: dict_set d' k v
  end.

(* ================================================================= *)
(** ** Retrieval engine *)

Definition scored : Type := (artist * Q)%type.

(** The test of the loop body of [apply_filters]: the flag [ok] after the
    three guarded assignments. *)
Definition passes (f : filters) (a : artist) : bool :=
  let ok := true in
  let ok := match max_budget f with
            | Some b => if (b <? price_min a)%Z then false else ok
            | None => ok
            end in
  let ok := match city f with
            | Some c => if negb (contains c (lower (location a))) then false else ok
            | None => ok
            end in
  let ok := match category_f f with
            | Some g => if negb (String.eqb (lower (category a)) (lower g)) then false else ok
            | None => ok
            end in
  ok.

Definition apply_filters (results : list scored) (f : filters) : list scored :=
  let out := filter (fun r => passes f (fst r)) results in
  match out with
  | [] => results
  | _ => out
  end.

(** The last two lines of the [try] block of [rag_search]. *)
Definition select_results (results : list scored) (f : filters) (top_k : Z)
  : list scored :=
  let filtered := py_prefix top_k (apply_filters results f) in
  match filtered with
  | [] => py_prefix top_k results
  | _ => filtered
  end.

(** What [rag_search] depends on outside the program text: the embedding
    model, the index built at start-up (when [faiss] was available) with the
    catalog snapshot it was built from, the brute-force ranking and the
    catalog file.  [None] is a raised exception. *)
Record rag_env (Vec : Type) : Type := RagEnv {
  encode : string -> option Vec;
  faiss_index : option (Vec -> Z -> option (list (Z * Q)));
  artists_for_rag : list artist;
  cosine_search : Vec -> Z -> option (list scored);
  load_artists : option (list artist)
}.

(** [[(arts[i], score) for (i, score) in hits if i >= 0]]; an index past the
    end raises [IndexError]. *)
Fixpoint pair_hits (arts : list artist) (hits : list (Z * Q)) : option (list scored) :=
  match hits with
  | [] => Some []
  | (i, sc) :: hits' =>
      if (0 <=? i)%Z then
        match nth_error arts (Z.to_nat i), pair_hits arts hits' with
        | Some a, Some rest => Some ((a, sc) :: rest)
        | _, _ => None
        end
      else pair_hits arts hits'
  end.

Section RagSearch.
Variable Vec : Type.
Variable env : rag_env Vec.

(** The ranking step: the index when there is one, else the fallback. *)
Definition rank (qvec : Vec) (top_k : Z) : option (list scored) :=
  match faiss_index env with
  | Some index_search =>
      let k := Z.min (top_k * 3) (Z.of_nat (List.length (artists_for_rag env))) in
      match index_search qvec k with
      | Some hits => pair_hits (artists_for_rag env) hits
      | None => None
      end
  | None => cosine_search env qvec (top_k * 3)
  end.

(** The [try] block, where [extract_filters] returns, as it does on a
    query of at most 640 characters. *)
Definition rag_search_try (query : string) (top_k : Z)
  : option (list scored * filters) :=
  match encode env query with
  | Some qvec =>
      let f := extract_filters query in
      match rank qvec top_k with
      | Some results => Some (select_results results f top_k, f)
      | None => None
      end
  | None => None
  end.

(** The [except] block. *)
Definition rag_search_except (top_k : Z) : option (list scored * filters) :=
  match load_artists env with
  | Some artists =>
      Some (map (fun a => (a, 0.5)) (py_prefix top_k artists), no_filters)
  | None => None
  end.

Definition rag_search (query : string) (top_k : Z)
  : option (list scored * filters) :=
  match rag_search_try query top_k with
  | Some r => Some r
  | None => rag_search_except top_k
  end.
End RagSearch.

(* ================================================================= *)
(** ** Provider cards *)

Record card : Type := Card {
  card_id : Z;
  card_name : string;
  card_category : string;
  card_location : string;
  card_rating : Q;
  card_price_min : Z;
  card_badge : string;
  card_avatar : string;
  match_score : Z
}.

(** [min(int(s*100), 99)] *)
Definition match_percent (s : Q) : option Z :=
  option_map (fun p => Z.min p 99) (Float64.int_int_mul 100 s).

Fixpoint _format_cards (matches : list scored) : option (list card) :=
  match matches with
  | [] => Some []
  | (a, s) :: rest =>
      match match_percent s, _format_cards rest with
      | Some pct, Some cards =>
          Some (Card (id a) (name a) (category a) (location a) (rating a)
                     (price_min a)
                     (match badge a with Some b => b | None => "" end)
                     (avatar a) pct :: cards)
      | _, _ => None
      end
  end.

(* ================================================================= *)
(** ** Event planner engine: the tables *)

Definition BUDGET_TEMPLATES : dict (dict Q) :=
  [ ("wedding",
      [ ("💐 Venue & Decor",        flt 0.30);
        ("🍽️ Catering & Drinks",    flt 0.25);
        ("🎵 Entertainment",        flt 0.20);
        ("📸 Photography & Video",  flt 0.10);
        ("💐 Flowers & Styling",    flt 0.07);
        ("💌 Invitations & Misc",   flt 0.05);
        ("🛡️ Contingency Buffer",   flt 0.03) ]);
    ("corporate",
      [ ("🏛️ Venue & AV Setup",     flt 0.35);
        ("🍽️ Catering",             flt 0.25);
        ("🎵 Entertainment",        flt 0.15);
        ("📸 Photography/Video",    flt 0.10);
        ("🎨 Branding & Signage",   flt 0.08);
        ("🚚 Logistics & Misc",     flt 0.07) ]);
    ("birthday",
      [ ("🏛️ Venue",                flt 0.25);
        ("🍕 Food & Drinks",        flt 0.30);
        ("🎵 Entertainment",        flt 0.20);
        ("📸 Photography",          flt 0.08);
        ("🎂 Cake & Desserts",      flt 0.10);
        ("🎈 Decorations",          flt 0.07) ]);
    ("festival",
      [ ("🎤 Stage & Sound",        flt 0.30);
        ("🎵 Artists/Performers",   flt 0.30);
        ("🚨 Security & Staffing",  flt 0.15);
        ("📣 Marketing",            flt 0.10);
        ("🍔 Food Vendors",         flt 0.10);
        ("🚚 Logistics",            flt 0.05) ]);
    ("party",
      [ ("🏛️ Venue",                flt 0.25);
        ("🍕 Food & Drinks",        flt 0.35);
        ("🎵 Entertainment",        flt 0.20);
        ("📸 Photography",          flt 0.08);
        ("🎈 Decorations",          flt 0.12) ]);
    ("gala",
      [ ("🏛️ Venue & Ambiance",     flt 0.30);
        ("🍽️ Catering (Fine Dining)", flt 0.28);
        ("🎵 Entertainment",        flt 0.18);
        ("📸 Photography/Video",    flt 0.10);
        ("💐 Flowers & Styling",    flt 0.08);
        ("💌 Invitations & Misc",   flt 0.06) ]);
    ("concert",
      [ ("🎤 Artist Booking",       flt 0.40);
        ("🏛️ Venue & Stage",        flt 0.25);
        ("🔊 Sound & Lighting",     flt 0.15);
        ("📣 Marketing & Tickets",  flt 0.10);
        ("🚨 Security & Staff",     flt 0.07);
        ("🚚 Logistics",            flt 0.03) ]);
    ("default",
      [ ("🏛️ Venue",                flt 0.30);
        ("🍽️ Catering",             flt 0.25);
        ("🎵 Entertainment",        flt 0.20);
        ("📸 Photography",          flt 0.10);
        ("🎈 Decorations",          flt 0.08);
        ("🚚 Miscellaneous",        flt 0.07) ]) ].

Definition EVENT_TIMELINES : dict (list (string * string)) :=
  [ ("wedding",
      [ ("12–18 Months Before", "Book venue & set budget. Begin wedding planning.");
        ("9–12 Months Before",  "Book entertainment (singer, DJ, band) & photographer.");
        ("6–9 Months Before",   "Finalize catering, florals, send save-the-dates.");
        ("3–6 Months Before",   "Book hair/makeup, confirm all vendors.");
        ("1–2 Months Before",   "Final fittings, rehearsal dinner, finalize seating.");
        ("1 Week Before",       "Confirm all bookings, prepare payments, final run-through.");
        ("Day Of 💍",           "Arrive early, coordinate vendors — enjoy your day!") ]);
    ("corporate",
      [ ("3–6 Months Before", "Define objectives, set budget, secure venue.");
        ("2–3 Months Before", "Book speakers/entertainment, plan catering, send invites.");
        ("6–8 Weeks Before",  "Confirm AV setup, branding materials, agenda.");
        ("2–4 Weeks Before",  "Send reminders, confirm headcount, brief all vendors.");
        ("1 Week Before",     "Run tech checks, prepare materials, confirm logistics.");
        ("Day Of 🏢",         "Arrive 2h early, setup registration, welcome attendees.") ]);
    ("birthday",
      [ ("6–8 Weeks Before", "Choose theme, book venue, estimate guest count.");
        ("4–6 Weeks Before", "Book entertainment, send invitations, plan menu.");
        ("2–4 Weeks Before", "Order cake, confirm vendors, plan decorations.");
        ("1 Week Before",    "Get RSVPs, confirm final numbers, prepare playlist.");
        ("Day Of 🎂",        "Set up early, welcome guests — have an amazing time!") ]);
    ("festival",
      [ ("6–12 Months Before", "Secure permits, book venue, finalize lineup budget.");
        ("4–6 Months Before",  "Book headlining artists, launch ticket sales.");
        ("2–4 Months Before",  "Book supporting acts, confirm food vendors, marketing.");
        ("4–8 Weeks Before",   "Finalize stage plan, security briefing, volunteer training.");
        ("1–2 Weeks Before",   "Load-in schedule, final checks, media accreditation.");
        ("Day Of 🎪",          "Gates open — enjoy the show!") ]);
    ("party",
      [ ("4–6 Weeks Before", "Book venue and entertainment.");
        ("2–4 Weeks Before", "Send invites, finalize catering and decorations.");
        ("1 Week Before",    "Confirm RSVPs and vendor headcounts.");
        ("Day Of 🥂",        "Set up early, welcome guests — party on!") ]);
    ("gala",
      [ ("4–6 Months Before", "Book venue, set gala theme, form planning committee.");
        ("2–4 Months Before", "Book entertainment, finalize catering, send invitations.");
        ("4–8 Weeks Before",  "Confirm all vendors, plan program & speeches.");
        ("1–2 Weeks Before",  "Final RSVP count, seating plan, briefing vendors.");
        ("Day Of ✨",         "Arrive early for setup — make it a night to remember!") ]);
    ("default",
      [ ("6–8 Weeks Before", "Book venue and set overall budget.");
        ("4–6 Weeks Before", "Book entertainment and catering, send invites.");
        ("2–4 Weeks Before", "Confirm vendors, finalize guest list.");
        ("1 Week Before",    "Confirm all bookings and logistics.");
        ("Day Of ✨",        "Arrive early and enjoy!") ]) ].

Definition ARTIST_CATEGORY_FOR_EVENT : dict (list string) :=
  [ ("wedding",   ["Singer"; "Musician"; "Photographer"; "DJ"; "Dancer"; "Painter"]);
    ("corporate", ["Performer"; "DJ"; "Musician"; "Photographer"; "Singer"]);
    ("birthday",  ["DJ"; "Performer"; "Musician"; "Photographer"]);
    ("festival",  ["Singer"; "DJ"; "Dancer"; "Musician"; "Performer"]);
    ("party",     ["DJ"; "Musician"; "Performer"; "Photographer"]);
    ("gala",      ["Singer"; "Musician"; "Photographer"; "Dancer"; "Painter"]);
    ("concert",   ["Singer"; "DJ"; "Musician"; "Dancer"]);
    ("default",   ["Singer"; "DJ"; "Musician"; "Photographer"; "Performer"]) ].

Definition PRO_TIPS : dict (list string) :=
  [ ("wedding",
      [ "📅 Book vendors at least 12 months ahead for peak wedding season.";
        "💰 Keep 5–10% of budget as emergency buffer — always.";
        "👤 A day-of coordinator saves stress and ensures everything runs on time." ]);
    ("corporate",
      [ "🎯 Define your KPIs before booking entertainment — align with event goals.";
        "📹 Record key sessions for post-event ROI content marketing.";
        "🎮 Interactive entertainment (magicians, live painters) boosts engagement 40%." ]);
    ("birthday",
      [ "🎵 Book DJ or entertainer at least 4–6 weeks ahead.";
        "🎁 Surprise elements (flash mob, live singer reveal) create lasting memories.";
        "🍕 Catering quality = ~30% of overall guest experience." ]);
    ("festival",
      [ "📋 Secure all permits before any public announcements.";
        "☔ Always have a rain contingency plan — outdoor events depend on it.";
        "🏥 On-site medical team is non-negotiable for large outdoor festivals." ]);
    ("party",
      [ "🎶 Great music = great party. Invest in a good DJ or live musician.";
        "🥂 Over-cater on drinks by 15% — you'll thank yourself later.";
        "📸 Even a casual photographer captures priceless memories." ]);
    ("gala",
      [ "✨ Invest in lighting — it transforms any venue for a fraction of cost.";
        "🎤 A professional emcee keeps the program flowing smoothly.";
        "💌 Physical invitations for a gala elevate the guest experience." ]);
    ("default",
      [ "📋 Always have a backup plan for key vendors.";
        "✅ Confirm all bookings 1 week before the event.";
        "💰 Keep a contingency budget of at least 5–10%." ]) ].

(* ================================================================= *)
(** ** Event planner engine: [generate_event_plan] *)

Record event_plan : Type := EventPlan {
  event_name : string;
  event_type : string;
  total_budget : Z;
  breakdown : dict Z;
  timeline : list (string * string);
  tips : list string;
  artists : list artist;
  entertainment_budget : Z
}.

(** The loop [for cat, pct in template.items(): breakdown[cat] =
    round(budget * pct)], from the dict built so far. *)
Fixpoint fill_breakdown (budget : Z) (template : dict Q) (acc : dict Z)
  : option (dict Z) :=
  match template with
  | [] => Some acc
  | (cat, pct) :: template' =>
      match Float64.round_int_mul budget pct with
      | Some v => fill_breakdown budget template' (dict_set acc cat v)
      | None => None
      end
  end.

(** The label test of the generator handed to [next]. *)
Definition is_entertainment (k : string) : bool :=
  contains "entertainment" (lower k) || contains "artist" (lower k).

(** [next((v for k, v in breakdown.items() if ...), default)] *)
Definition next_entertainment (bd : dict Z) (default : Z) : Z :=
  match find (fun kv => is_entertainment (fst kv)) bd with
  | Some (_, v) => v
  | None => default
  end.

(** [a["category"] in pref_cats] *)
Definition in_cats (c : string) (pref_cats : list string) : bool :=
  existsb (String.eqb c) pref_cats.

(** The artist-matching block. *)
Definition match_artists (all : list artist) (pref_cats : list string)
           (ent_budget : Z) : list artist :=
  let candidates :=
    filter (fun a => (price_min a <=? ent_budget)%Z && in_cats (category a) pref_cats)
           all in
  let candidates := sort_by_rating_desc candidates in
  let top_artists := firstn 3 candidates in
  if (List.length top_artists <? 2)%nat then
    let extras :=
      filter (fun a => (price_min a <=? ent_budget)%Z && negb (artist_in a top_artists))
             all in
    let extras := sort_by_rating_desc extras in
    firstn 3 (top_artists ++ extras)
  else top_artists.

(** [generate_event_plan(event_name, budget, query)], given what
    [load_artists()] does when it is called. *)
Definition generate_event_plan (catalog : option (list artist))
           (ev_name : string) (budget : Z) (query : string) : option event_plan :=
  let ev_type := detect_event_type (query ++ " " ++ ev_name) in
  match get_or_default BUDGET_TEMPLATES ev_type,
        get_or_default EVENT_TIMELINES ev_type,
        get_or_default PRO_TIPS ev_type,
        get_or_default ARTIST_CATEGORY_FOR_EVENT ev_type with
  | Some template, Some tl, Some tps, Some pref_cats =>
      match fill_breakdown budget template [] with
      | Some bd =>
          (* the second argument of [next] is evaluated before the call *)
          match Float64.int_int_mul budget (flt 0.20) with
          | Some dflt =>
              let ent_budget := next_entertainment bd dflt in
              match catalog with
              | Some all =>
                  Some (EventPlan ev_name ev_type budget bd tl tps
                                  (match_artists all pref_cats ent_budget)
                                  ent_budget)
              | None => None
              end
          | None => None
          end
      | None => None
      end
  | _, _, _, _ => None
  end.


(* ================================================================= *)
(** ** The decision table of the specification

    The specification words [detect_event_type] as keyword sets tried in a
    fixed priority order; this is that table, to compare with the chain of
    conditionals above. *)

Definition priority_table : list (string * list string) :=
  [ ("wedding",   ["wedding"; "marriage"; "bride"; "groom"; "nuptial"]);
    ("corporate", ["corporate"; "company"; "office"; "conference"; "business";
                   "launch"; "product launch"]);
    ("birthday",  ["birthday"; "bday"; "birth day"]);
    ("festival",  ["festival"; "fest"; "music festival"]);
    ("gala",      ["gala"; "charity"; "fundraiser"; "award"; "black tie"]);
    ("concert",   ["concert"; "live show"; "performance night"]);
    ("party",     ["party"; "celebration"; "get together"; "house party"]) ].

Definition detect_event_type_spec (text : string) : string :=
  match find (fun row => any_in (snd row) (lower text)) priority_table with
  | Some (ty, _) => ty
  | None => "default"
  end.

(** The earliest match of a pattern in a text, parsed. *)
Definition earliest_amount (text : string) (p : Re.regex * bool) : option Z :=
  option_map (fun m => parse_amount m (snd p)) (Re.search true (fst p) text).

(** A pattern that does not make the loop return: no match, or an earliest
    match below 100. *)
Definition passed_over (text : string) (p : Re.regex * bool) : Prop :=
  match earliest_amount text p with
  | Some v => (v < 100)%Z
  | None => True
  end.

(** [w] occurs in [t]. *)
Definition occurs_in (w t : string) : Prop :=
  exists pre post : string, t = (pre ++ w ++ post)%string.


(** The descending order of ratings. *)
Definition rating_ge (a b : artist) : Prop := (rating b <= rating a)%Q.

Definition same_rating (r : Q) (a : artist) : bool := Qeq_bool (rating a) r.

Definition sum_values (bd : dict Z) : Z := fold_right Z.add 0%Z (map snd bd).

(** The two-place decimal a weight was written as. *)
Definition decimal_of (w : Q) : Q :=
  (inject_Z (Float64.round_half_even (w * 100)) / 100)%Q.

Definition sum_decimals (tpl : dict Q) : Q :=
  fold_right Qplus 0%Q (map (fun kw => decimal_of (snd kw)) tpl).

Fixpoint distinct (ks : list string) : bool :=
  match ks with
  | [] => true
  | k :: ks' => negb (existsb (String.eqb k) ks') && distinct ks'
  end.

(** A well-formed budget template: distinct labels, at least four of them,
    each weight the binary64 value of a two-place decimal between 1/64 and
    1, and the decimals adding up to one. *)
Definition weight_ok (kw : string * Q) : bool :=
  Qeq_bool (flt (decimal_of (snd kw))) (snd kw)
  && Qle_bool (1 # 64) (decimal_of (snd kw))
  && Qle_bool (decimal_of (snd kw)) 1.

Definition template_ok (tpl : dict Q) : bool :=
  distinct (map fst tpl)
  && (4 <=? List.length tpl)%nat
  && forallb weight_ok tpl
  && Qeq_bool (sum_decimals tpl) 1.

(** The breakdown of a template with distinct labels, when every product
    is finite. *)
Definition amounts (B : Z) (tpl : dict Q) : dict Z :=
  map (fun kw => (fst kw, Float64.amount B (snd kw))) tpl.

(** The weights added without rounding. *)
Definition exact_sum (tpl : dict Q) : Q := fold_right Qplus 0%Q (map snd tpl).

(** [abs(sum(template.values()) - 1.0) <= 1e-6], with the sum taken in
    floating point and with the sum taken exactly. *)
Definition sum_near_one (tpl : dict Q) : bool :=
  match Float64.sum (map snd tpl) with
  | Some s => Qle_bool (Qabs (s - 1)) 0.000001
              && Qle_bool (Qabs (exact_sum tpl - 1)) 0.000001
  | None => false
  end.

(** [ARTIST_CATEGORY_FOR_EVENT[ty]] *)
Definition categories_of (ty : string) : list string :=
  match dict_get ARTIST_CATEGORY_FOR_EVENT ty with
  | Some cats => cats
  | None => []
  end.

(** The plan [generate_event_plan] assembles from its intermediate values. *)
Definition assemble_plan (all : list artist) (ev_name ev_type : string)
           (budget : Z) (bd : dict Z) (tl : list (string * string))
           (tps : list string) (cats : list string) (dflt : Z) : event_plan :=
  let ent_budget := next_entertainment bd dflt in
  EventPlan ev_name ev_type budget bd tl tps
            (match_artists all cats ent_budget) ent_budget.

(** [BUDGET_TEMPLATES[ty]] *)
Definition template_of (ty : string) : dict Q :=
  match dict_get BUDGET_TEMPLATES ty with
  | Some tpl => tpl
  | None => []
  end.

(** [shortlist] is the first [n] of [pool] put in descending order of
    rating, records of equal rating in the order they have in [pool]. *)
Definition ranked_prefix (n : nat) (shortlist pool : list artist) : Prop :=
  exists sorted,
    shortlist = firstn n sorted
    /\ Permutation sorted pool
    /\ StronglySorted rating_ge sorted
    /\ forall r, filter (same_rating r) sorted = filter (same_rating r) pool.

(** The candidates of [match_artists] before sorting, and the pool it
    widens to. *)
Definition preferred_pool (all : list artist) (cats : list string) (cap : Z)
  : list artist :=
  filter (fun a => (price_min a <=? cap)%Z && in_cats (category a) cats) all.

Definition widened_pool (all top : list artist) (cap : Z) : list artist :=
  filter (fun a => (price_min a <=? cap)%Z && negb (artist_in a top)) all.

(** The keys of a dict after [d[k] = v]. *)
Definition add_key (ks : list string) (k : string) : list string :=
  if existsb (String.eqb k) ks then ks else ks ++ [k].


(* ================================================================= *)
(** ** Sample data *)

Definition singer_3 : artist :=
  Artist 1 "Ada" "Singer" "Chicago, IL" ["jazz"] 1500 3000 3.0 ["wedding"] "" None "".

Definition magician_5 : artist :=
  Artist 2 "Max" "Magician" "Austin, TX" ["cards"] 900 1200 5.0 ["party"] "" None "".

Definition dj_4 : artist :=
  Artist 3 "Dee" "DJ" "Chicago, IL" ["house"] 2500 5000 4.0 ["wedding"] "" None "".

Definition sample_catalog : list artist := [singer_3; magician_5].

(** The model cannot be loaded and the catalog file cannot be read. *)
Definition broken_env : rag_env unit :=
  RagEnv (fun _ => None) None [] (fun _ _ => None) None.

(** The model cannot be loaded; the catalog file is readable. *)
Definition offline_env : rag_env unit :=
  RagEnv (fun _ => None) None [] (fun _ _ => None) (Some sample_catalog).

Definition sample_plan : event_plan :=
  Eval vm_compute in
    match generate_event_plan (Some sample_catalog) "Wedding" 20000
                              "plan my wedding" with
    | Some p => p
    | None => EventPlan "" "" 0 [] [] [] [] 0
    end.

Definition sample_concert_plan : event_plan :=
  Eval vm_compute in
    match generate_event_plan (Some sample_catalog) "Concert Night" 5000
                              "plan a concert" with
    | Some p => p
    | None => EventPlan "" "" 0 [] [] [] [] 0
    end.

(* ================================================================= *)
(** * The routes around the core

    The guard of the planning path, the user database, profile creation,
    the landing page and the two chat routes.  Text is ASCII, as above:
    [isdigit] holds of the digits [0]-[9] and [strip] removes the ASCII
    white space, which is what [str.isdigit] and [str.strip] do on such
    text. *)

(** ** More of the text classifier *)

(** The text is ASCII: every byte is below 128. *)
Definition is_ascii (s : string) : bool :=
  forallb (fun c => (nat_of_ascii c <? 128)%nat) (list_ascii_of_string s).

Definition plan_kw : list string :=
  ["plan"; "planning"; "organize"; "help me"; "budget"; "breakdown";
   "schedule"; "timeline"; "prepare"; "arrange"; "full plan"; "complete";
   "how much"; "what do i need"; "guide"; "checklist"].

Definition event_kw : list string :=
  ["wedding"; "party"; "corporate"; "birthday"; "festival"; "gala";
   "concert"; "event"; "celebration"; "ceremony"].

Definition is_some {A} (o : option A) : bool :=
  match o with Some _ => true | None => false end.

Definition is_event_plan_request (text : string) : bool :=
  let t := lower text in
  let has_plan := any_in plan_kw t in
  let has_event := any_in event_kw t in
  let has_budget := is_some (extract_budget_from_text text) in
  (has_plan && has_event) || (has_event && has_budget).

(** The guard of the first path of [plan_chat],
    [is_event_plan_request(message) and budget], with
    [budget = extract_budget_from_text(message)]; an [int] is true when it
    is not 0. *)
Definition plan_path (message : string) : bool :=
  is_event_plan_request message
  && match extract_budget_from_text message with
     | Some b => negb (b =? 0)%Z
     | None => false
     end.

(** The 256 characters, and the characters a pattern cannot match without:
    [demands icase p r] holds when every match of [r] consumes a character
    of the class [p]. *)
Definition all_ascii : list ascii := map ascii_of_nat (seq 0 256).

Definition class_within (q p : ascii -> bool) : bool :=
  forallb (fun c => implb (q c) (p c)) all_ascii.

Fixpoint demands (icase : bool) (p : ascii -> bool) (r : Re.regex) : bool :=
  match r with
  | Re.Eps => false
  | Re.Lit c => class_within (Re.lit_eqb icase c) p
  | Re.Class q => class_within q p
  | Re.Seq r1 r2 => demands icase p r1 || demands icase p r2
  | Re.Alt r1 r2 => demands icase p r1 && demands icase p r2
  | Re.Star _ => false
  | Re.Opt _ => false
  | Re.Group r1 => demands icase p r1
  end.

(** No character of the text is in the class [p]. *)
Definition free_of (p : ascii -> bool) (text : string) : Prop :=
  forall c, In c (list_ascii_of_string text) -> p c = false.

(** The pattern of the dollar amount in [extract_filters]. *)
Definition dollar_pattern : Re.regex :=
  (Re.Lit "$" ++ numeral ++ Re.Opt (Re.Class Re.kK))%re.

(* ================================================================= *)
(** ** User database

    The users file is the list of its records; [hash_password] is SHA-256
    in hexadecimal and [now] the clock reading of [datetime.now()], both
    taken as given. *)

Record user : Type := User {
  user_id : Z;
  user_name : string;
  user_email : string;
  user_password : string;
  user_role : string;
  user_created_at : string;
  user_avatar : string
}.

(** [str(n)] for an [int]. *)
Definition str_of_int (n : Z) : string := NilZero.string_of_int (Z.to_int n).

(** [max(xs, default=d)] *)
Definition max_default (xs : list Z) (d : Z) : Z :=
  match xs with
  | [] => d
  | x :: xs' => fold_left Z.max xs' x
  end.

Definition find_user_by_email (users : list user) (email : string) : option user :=
  find (fun u => String.eqb (lower (user_email u)) (lower email)) users.

Section Users.
Variable hash_password : string -> string.

(** [register_user]: the users file afterwards, and the pair returned. *)
Definition register_user (users : list user) (name email password role now : string)
  : list user * (option user * option string) :=
  match find_user_by_email users email with
  | Some _ => (users, (None, Some "An account with this email already exists."))
  | None =>
      let new_id := (max_default (map user_id users) 0 + 1)%Z in
      let u := User new_id name email (hash_password password) role now
                    ("https://i.pravatar.cc/150?img=" ++ str_of_int (new_id + 50)) in
      (users ++ [u], (Some u, None))
  end.

Definition login_user (users : list user) (email password : string)
  : option user * option string :=
  match find_user_by_email users email with
  | None => (None, Some "No account found with this email.")
  | Some u =>
      if negb (String.eqb (user_password u) (hash_password password))
      then (None, Some "Incorrect password. Please try again.")
      else (Some u, None)
  end.
End Users.

(** The invariants of the users file. *)
Definition unique_ids (users : list user) : Prop := NoDup (map user_id users).

Definition unique_emails (users : list user) : Prop :=
  NoDup (map (fun u => lower (user_email u)) users).

(* ================================================================= *)
(** ** Profile creation *)

(** [s.split(sep)] for a one-character separator: never empty. *)
Fixpoint split_on (sep : ascii) (s : string) : list string :=
  match s with
  | EmptyString => [EmptyString]
  | String c s' =>
      if Ascii.eqb c sep then EmptyString :: split_on sep s'
      else match split_on sep s' with
           | [] => [String c EmptyString]
           | w :: ws => String c w :: ws
           end
  end.

(** [s.isdigit()] on ASCII text: not empty, digits only. *)
Definition isdigit (s : string) : bool :=
  match s with
  | EmptyString => false
  | _ => forallb is_digit (list_ascii_of_string s)
  end.

(** [s.lstrip()], [s.rstrip()], [s.strip()] *)
Fixpoint lstrip (s : string) : string :=
  match s with
  | EmptyString => EmptyString
  | String c s' => if Re.space c then lstrip s' else s
  end.

Fixpoint rstrip (s : string) : string :=
  match s with
  | EmptyString => EmptyString
  | String c s' =>
      match rstrip s' with
      | EmptyString => if Re.space c then EmptyString else String c EmptyString
      | t => String c t
      end
  end.

Definition strip (s : string) : string := rstrip (lstrip s).

Definition nonempty (s : string) : bool :=
  match s with EmptyString => false | _ => true end.

(** [[s.strip() for s in text.split(",") if s.strip()]] *)
Definition parse_skills (text : string) : list string :=
  filter nonempty (map strip (split_on "," text)).

(** [max(a["id"] for a in artists) + 1 if artists else 1] *)
Definition next_artist_id (artists : list artist) : Z :=
  match artists with
  | [] => 1%Z
  | a :: rest => (fold_left Z.max (map id rest) (id a) + 1)%Z
  end.

(** The form of [build_profile]: [request.form.get(key, default)]. *)
Definition form_get (form : dict string) (key default : string) : string :=
  match dict_get form key with
  | Some v => v
  | None => default
  end.

Section Profile.
(** [sys.get_int_max_str_digits()]: the interpreter's limit on the digits
    [int] converts, 4300 unless configured; 0 is no limit, also for an
    interpreter that has none.  The limit is not applied to 640 digits or
    fewer. *)
Variable int_max_str_digits : nat.

(** [int(p)] for a string of digits; [None] is the [ValueError] past the
    limit. *)
Definition int_of_str (p : string) : option Z :=
  if ((0 <? int_max_str_digits) && (640 <? String.length p)
      && (int_max_str_digits <? String.length p))%nat
  then None
  else Some (int_of_digits (list_ascii_of_string p)).

(** [int(parts[i]) if len(parts) > i and parts[i].isdigit() else 0] *)
Definition price_part (parts : list string) (i : nat) : option Z :=
  match nth_error parts i with
  | Some p => if isdigit p then int_of_str p else Some 0%Z
  | None => Some 0%Z
  end.

Definition parse_price_range (price_range : string) : option (Z * Z) :=
  let parts := split_on "-" price_range in
  match price_part parts 0 with
  | Some pmin =>
      match price_part parts 1 with
      | Some pmax => Some (pmin, pmax)
      | None => None
      end
  | None => None
  end.

(** The POST branch of [build_profile]: the catalog saved, [None] when the
    request raises before anything is saved.  Of the new record, the fields
    of [artist]. *)
Definition build_profile (artists : list artist) (form : dict string)
  : option (list artist) :=
  let new_id := next_artist_id artists in
  let skills := parse_skills (form_get form "skills" "") in
  match parse_price_range (form_get form "price_range" "0-0") with
  | Some (pmin, pmax) =>
      let new_artist :=
        Artist new_id (form_get form "name" "") (form_get form "category" "")
               (form_get form "city" "" ++ ", " ++ form_get form "location" "")
               skills pmin pmax 0.0%Q []
               (form_get form "bio" "") (Some "New Artist")
               ("https://i.pravatar.cc/150?img=" ++ str_of_int (new_id + 40)) in
      Some (artists ++ [new_artist])
  | None => None
  end.
End Profile.

(** The landing page: [[a for a in artists if a["rating"] >= 4.8][:6]]. *)
Definition featured (artists : list artist) : list artist :=
  firstn 6 (filter (fun a => Qle_bool (flt 4.8) (rating a)) artists).

(** The artist page and the booking route look a record up by its id:
    [next((a for a in artists if a["id"] == artist_id), None)]. *)
Definition find_artist (artists : list artist) (artist_id : Z) : option artist :=
  find (fun a => (id a =? artist_id)%Z) artists.

(* ================================================================= *)
(** ** The chat routes *)

(** What a chat route answers: a text, an event plan, or provider cards. *)
Inductive chat_reply : Type :=
| ReplyText (response : string)
| ReplyPlan (plan : event_plan)
| ReplyArtists (cards : list card).

Section Chat.
Variable Vec : Type.
Variable env : rag_env Vec.
(** [extract_event_name], which returns a name for every text. *)
Variable extract_event_name : string -> string.

(** [plan_chat]: the message is stripped; the planning path is taken on
    [is_event_plan_request(message) and budget], else the search path with
    [top_k=3]; whatever raises is answered with the apology.  The text
    beside the cards raises on the same matches as the cards. *)
Definition plan_chat (raw_message : string) : chat_reply :=
  let message := strip raw_message in
  if negb (nonempty message) then
    ReplyText "Please describe your event and budget!"
  else
    let sorry := ReplyText "Something went wrong. Please try again." in
    if plan_path message then
      match extract_budget_from_text message with
      | Some budget =>
          match generate_event_plan (load_artists env)
                                    (extract_event_name message) budget message with
          | Some plan => ReplyPlan plan
          | None => sorry
          end
      | None => sorry
      end
    else
      match rag_search env message 3 with
      | Some (matches, _) =>
          match _format_cards matches with
          | Some cards => ReplyArtists cards
          | None => sorry
          end
      | None => sorry
      end.

(** [ai_chat]: the cards of its answer. *)
Definition ai_chat (raw_message : string) : list card :=
  let query := strip raw_message in
  if negb (nonempty query) then []
  else
    match rag_search env query 3 with
    | Some (matches, _) =>
        match _format_cards matches with
        | Some cards => cards
        | None => []
        end
    | None => []
    end.
End Chat.

(* ================================================================= *)
(** ** The values [detect_event_type] can return *)

Definition event_type_names : list string :=
  ["wedding"; "corporate"; "birthday"; "festival"; "gala"; "concert";
   "party"; "default"].

(** A template whose shares are all at most one half. *)
Definition shares_at_most_half (tpl : dict Q) : bool :=
  forallb (fun kw => Qle_bool (decimal_of (snd kw)) (1 # 2)) tpl.

(* ================================================================= *)
(** * Properties *)

(* ================================================================= *)
(** ** Strings *)

Lemma prefix_app (w t : string) :
  prefix w t = true <-> exists post, t = (w ++ post)%string.
Proof.
  revert t; induction w as [|c w IH]; intros t.
  - split; [intros _; now exists t | now destruct t].
  - destruct t as [|d t]; simpl.
    + split; [discriminate | intros [post H]; discriminate].
    + destruct (Ascii.ascii_dec c d) as [->|Hne].
      * rewrite IH. split; intros [post H]; exists post.
        -- now rewrite H.
        -- now injection H.
      * split; [discriminate | intros [post H]; injection H; congruence].
Qed.

Lemma contains_eq (w t : string) :
  contains w t =
  if prefix w t then true
  else match t with
       | EmptyString => false
       | String _ t' => contains w t'
       end.
Proof.
  destruct t; reflexivity.
Qed.

Lemma contains_occurs (w t : string) :
  contains w t = true <-> occurs_in w t.
Proof.
  induction t as [|d t IH]; rewrite contains_eq.
  - destruct (prefix w "") eqn:Hp.
    + split; [intros _ | reflexivity].
      apply prefix_app in Hp as [post Hp]. now exists "", post.
    + split; [discriminate|].
      intros [pre [post H]]. destruct pre; simpl in H; [|discriminate].
      assert (prefix w "" = true) by (apply prefix_app; now exists post).
      congruence.
  - destruct (prefix w (String d t)) eqn:Hp.
    + split; [intros _ | reflexivity].
      apply prefix_app in Hp as [post Hp]. now exists "", post.
    + rewrite IH. split.
      * intros [pre [post H]]. exists (String d pre), post. simpl. now rewrite H.
      * intros [pre [post H]]. destruct pre as [|e pre]; simpl in H.
        -- assert (prefix w (String d t) = true) by (apply prefix_app; now exists post).
           congruence.
        -- injection H as _ H. now exists pre, post.
Qed.

Lemma any_in_occurs (ws : list string) (t : string) :
  any_in ws t = true <-> exists w, In w ws /\ occurs_in w t.
Proof.
  unfold any_in. rewrite existsb_exists.
  split; intros [w [Hin H]]; exists w; split; auto; now apply contains_occurs.
Qed.

Lemma lower_ascii_idem (c : ascii) : lower_ascii (lower_ascii c) = lower_ascii c.
Proof.
  destruct c as [[] [] [] [] [] [] [] []]; reflexivity.
Qed.

Lemma lower_idem (s : string) : lower (lower s) = lower s.
Proof.
  induction s as [|c s IH]; simpl; [reflexivity|].
  now rewrite lower_ascii_idem, IH.
Qed.

(* ================================================================= *)
(** ** The text classifier *)

(** The chain of conditionals is the decision table read top to bottom. *)
Lemma detect_event_type_table (text : string) :
  detect_event_type text = detect_event_type_spec text.
Proof.
  unfold detect_event_type, detect_event_type_spec, priority_table.
  cbn [find snd].
  repeat match goal with
         | |- context [any_in ?ws ?t] => destruct (any_in ws t); [reflexivity|]
         end.
  reflexivity.
Qed.

(** C7. [detect_event_type] tests keyword membership on the lower-cased
    text, set by set in the order wedding, corporate, birthday, festival,
    gala, concert, party; the first set with a keyword occurring in the text
    gives the type and no match gives ["default"].  Texts that differ only
    in case are classified alike, and "planning our corporate wedding party"
    is a wedding. *)
Theorem detect_event_type_priority :
  (forall text, detect_event_type text = detect_event_type_spec text)
  /\ map fst priority_table
     = ["wedding"; "corporate"; "birthday"; "festival"; "gala"; "concert"; "party"]
  /\ (forall text before ty kws after,
        priority_table = before ++ (ty, kws) :: after ->
        (exists w, In w kws /\ occurs_in w (lower text)) ->
        (forall row w, In row before -> In w (snd row) -> ~ occurs_in w (lower text)) ->
        detect_event_type text = ty)
  /\ (forall text,
        (forall row w, In row priority_table -> In w (snd row) ->
                       ~ occurs_in w (lower text)) ->
        detect_event_type text = "default")
  /\ (forall text text', lower text = lower text' ->
        detect_event_type text = detect_event_type text')
  /\ detect_event_type "planning our corporate wedding party" = "wedding".
Proof.
  split; [exact detect_event_type_table|].
  split; [reflexivity|].
  split.
  { intros text before ty kws after Htab Hhit Hmiss.
    rewrite detect_event_type_table. unfold detect_event_type_spec.
    rewrite Htab. clear Htab.
    induction before as [|row before IH]; simpl.
    - apply any_in_occurs in Hhit. now rewrite Hhit.
    - destruct (any_in (snd row) (lower text)) eqn:Hrow.
      + apply any_in_occurs in Hrow as [w [Hw Hocc]].
        exfalso. apply (Hmiss row w); simpl; auto.
      + apply IH. intros row' w Hin. apply Hmiss. now right. }
  split.
  { intros text Hmiss.
    rewrite detect_event_type_table. unfold detect_event_type_spec.
    induction priority_table as [|row rows IH]; simpl; [reflexivity|].
    destruct (any_in (snd row) (lower text)) eqn:Hrow.
    - apply any_in_occurs in Hrow as [w [Hw Hocc]].
      exfalso. apply (Hmiss row w); simpl; auto.
    - apply IH. intros row' w Hin. apply Hmiss. now right. }
  split.
  { intros text text' H. unfold detect_event_type. now rewrite H. }
  reflexivity.
Qed.

Lemma detect_event_type_priority_witness :
  detect_event_type "Planning our CORPORATE Wedding party"
  = detect_event_type "planning our corporate wedding party".
Proof.
  apply (proj1 (proj2 (proj2 (proj2 (proj2 detect_event_type_priority))))).
  reflexivity.
Defined.

(** *** [extract_budget_from_text] *)

Lemma try_pattern_none (text : string) (p : Re.regex * bool) :
  try_pattern text p = None <-> passed_over text p.
Proof.
  unfold try_pattern, passed_over, earliest_amount.
  destruct (Re.search true (fst p) text) as [m|]; simpl; [|tauto].
  destruct (Z.leb_spec 100 (parse_amount m (snd p))); split;
    intros; try discriminate; try reflexivity; lia.
Qed.

Lemma try_pattern_some (text : string) (p : Re.regex * bool) (v : Z) :
  try_pattern text p = Some v <-> earliest_amount text p = Some v /\ (100 <= v)%Z.
Proof.
  unfold try_pattern, earliest_amount.
  destruct (Re.search true (fst p) text) as [m|]; simpl.
  - destruct (Z.leb_spec 100 (parse_amount m (snd p))) as [Hle|Hlt]; split.
    + intros Hs; injection Hs as <-. now split.
    + intros [Hs _]. exact Hs.
    + discriminate.
    + intros [Hs Hv]. injection Hs as <-. lia.
  - split; [discriminate | intros [H _]; discriminate].
Qed.

Lemma first_return_spec (text : string) (ps : list (Re.regex * bool)) :
  match first_return text ps with
  | Some v =>
      exists before p after,
        ps = before ++ p :: after
        /\ Forall (passed_over text) before
        /\ earliest_amount text p = Some v /\ (100 <= v)%Z
  | None => Forall (passed_over text) ps
  end.
Proof.
  induction ps as [|p ps IH]; simpl; [constructor|].
  destruct (try_pattern text p) as [v|] eqn:Hp.
  - apply try_pattern_some in Hp as [Hv Hge].
    exists [], p, ps. repeat split; auto.
  - apply try_pattern_none in Hp.
    destruct (first_return text ps) as [v|].
    + destruct IH as (before & q & after & -> & Hb & Hq & Hge).
      exists (p :: before), q, after. repeat split; auto.
    + now constructor.
Qed.

(** C3, as the code has it.  The first and the third vector of the
    specification hold.  The second does not: a numeral is a digit followed
    by digits and commas, so in "2.5k for the event" the second pattern
    matches "5k" and the result is 5000. *)
Theorem extract_budget_vectors :
  extract_budget_from_text "$2,500 budget" = Some 2500%Z
  /\ extract_budget_from_text "2.5k for the event" = Some 5000%Z
  /\ extract_budget_from_text "$50" = None
  /\ option_map (fun m => string_of_list_ascii (Re.group1 m))
       (Re.search true (fst (nth 1 budget_patterns (Re.Eps, false)))
                  "2.5k for the event")
     = Some "5".
Proof.
  repeat split; vm_compute; reflexivity.
Qed.

(** C3, as stated, fails on its second vector. *)
Lemma extract_budget_vectors_as_stated_fail :
  ~ (extract_budget_from_text "$2,500 budget" = Some 2500%Z
     /\ extract_budget_from_text "2.5k for the event" = Some 2500%Z
     /\ extract_budget_from_text "$50" = None).
Proof.
  intros (_ & H & _). vm_compute in H. discriminate H.
Qed.

(** C6, as the code has it.  For a text of at most 640 characters, on
    which [int] cannot raise, each pattern is searched once and only its
    earliest match is parsed.  The result is the amount of the first
    pattern, in the listed order, whose earliest match is at least 100; the
    patterns before it have no match or an earliest match below 100; the
    result is absent exactly when every pattern is in that case. *)
Theorem extract_budget_earliest_match_only (text : string) :
  (String.length text <= 640)%nat ->
  match extract_budget_from_text text with
  | Some v =>
      exists before p after,
        budget_patterns = before ++ p :: after
        /\ Forall (passed_over text) before
        /\ earliest_amount text p = Some v /\ (100 <= v)%Z
  | None => Forall (passed_over text) budget_patterns
  end.
Proof.
  intros _. apply first_return_spec.
Qed.

Lemma extract_budget_earliest_match_only_witness :
  match extract_budget_from_text "$50 deposit, 3k budget" with
  | Some v =>
      exists before p after,
        budget_patterns = before ++ p :: after
        /\ Forall (passed_over "$50 deposit, 3k budget") before
        /\ earliest_amount "$50 deposit, 3k budget" p = Some v /\ (100 <= v)%Z
  | None => Forall (passed_over "$50 deposit, 3k budget") budget_patterns
  end.
Proof.
  apply (extract_budget_earliest_match_only "$50 deposit, 3k budget").
  simpl. lia.
Defined.

(** C6, as stated, fails: in "$5 and $500" the earliest match of the third
    pattern is "$5"; the later occurrence "$500" matches the same pattern
    and parses to 500, but it is never looked at and the result is absent. *)
Lemma extract_budget_no_rescan :
  let text := "$5 and $500" in
  let later := " and $500" in
  exists p,
    In p budget_patterns
    /\ earliest_amount text p = Some 5%Z
    /\ text = ("$5" ++ later)%string
    /\ earliest_amount later p = Some 500%Z
    /\ extract_budget_from_text text = None.
Proof.
  exists (nth 2 budget_patterns (Re.Eps, false)).
  split; [simpl; auto|].
  repeat split; vm_compute; reflexivity.
Qed.

(* ================================================================= *)
(** ** Binary64 rounding *)

Section Rounding.
Import Float64.
Local Open Scope Q_scope.

Lemma pow2_pos (e : Z) : 0 < 2 ^ e.
Proof. apply Qpower_0_lt. reflexivity. Qed.

Lemma pow2_add (a b : Z) : 2 ^ (a + b) == 2 ^ a * 2 ^ b.
Proof. apply Qpower_plus. discriminate. Qed.

Lemma pow2_inject (n : Z) : (0 <= n)%Z -> inject_Z (2 ^ n) == 2 ^ n.
Proof. intros H. now rewrite Zpower_Qpower. Qed.

Lemma pow2_mono (a b : Z) : (a <= b)%Z -> 2 ^ a <= 2 ^ b.
Proof. intros H. apply Qpower_le_compat_l; [exact H | discriminate]. Qed.

(** [2 ^ ilog2 x] is a lower bound of [x]. *)
Lemma ilog2_lower (x : Q) : 0 < x -> 2 ^ ilog2 x <= x.
Proof.
  destruct x as [n d]. intros Hx.
  assert (Hn : (0 < n)%Z).
  { unfold Qlt in Hx. simpl in Hx. lia. }
  unfold ilog2. cbn [Qnum Qden].
  set (a := Z.log2 n). set (b := Z.log2 (Z.pos d)).
  assert (Ha : (0 <= a)%Z) by apply Z.log2_nonneg.
  assert (Hb : (0 <= b)%Z) by apply Z.log2_nonneg.
  destruct (Z.log2_spec n Hn) as [Hn1 _]. fold a in Hn1.
  destruct (Z.log2_spec (Z.pos d) eq_refl) as [_ Hd2]. fold b in Hd2.
  assert (HD : 0 < inject_Z (Z.pos d)) by reflexivity.
  rewrite (Qmake_Qdiv n d).
  apply Qle_shift_div_l; [exact HD|].
  destruct (Z.leb_spec (Z.pos d * 2 ^ Z.max (a - b) 0) (n * 2 ^ Z.max (- (a - b)) 0))
    as [Hle|Hgt].
  - set (P := Z.max (a - b) 0) in *. set (M := Z.max (- (a - b)) 0) in *.
    assert (HP : (0 <= P)%Z) by (unfold P; lia).
    assert (HM : (0 <= M)%Z) by (unfold M; lia).
    assert (HPM : (a - b + M = P)%Z) by (unfold P, M; lia).
    rewrite Zle_Qle, !inject_Z_mult, !pow2_inject in Hle by assumption.
    rewrite <- HPM, pow2_add in Hle.
    pose proof (pow2_pos M) as HMpos.
    apply (Qmult_le_r _ _ (2 ^ M)); [exact HMpos|].
    lra.
  - assert (E : 2 ^ a == 2 ^ (a - b - 1) * 2 ^ (b + 1)).
    { rewrite <- pow2_add. now replace (a - b - 1 + (b + 1))%Z with a by lia. }
    assert (Hn1' : 2 ^ a <= inject_Z n).
    { rewrite <- pow2_inject by exact Ha. now rewrite <- Zle_Qle. }
    assert (Hd2' : inject_Z (Z.pos d) <= 2 ^ (b + 1)).
    { rewrite <- pow2_inject by lia. rewrite <- Zle_Qle. lia. }
    pose proof (pow2_pos (a - b - 1)) as Hk.
    apply Qle_trans with (2 ^ (a - b - 1) * 2 ^ (b + 1)); [|lra].
    apply Qmult_le_l; [exact Hk | exact Hd2'].
Qed.

(** Rounding to the nearest integer moves by at most one half. *)
Lemma round_half_even_bounds (x : Q) :
  x - (1 # 2) <= inject_Z (round_half_even x) <= x + (1 # 2).
Proof.
  unfold round_half_even.
  pose proof (Qfloor_le x) as Hlo.
  pose proof (Qlt_floor x) as Hhi.
  rewrite inject_Z_plus in Hhi. change (inject_Z 1) with 1 in Hhi.
  set (f := Qfloor x) in *.
  destruct (Qcompare (x - inject_Z f) (1 # 2)) eqn:E.
  - apply Qeq_alt in E.
    destruct (Z.even f); [|rewrite inject_Z_plus; change (inject_Z 1) with 1]; lra.
  - apply Qlt_alt in E. lra.
  - apply Qgt_alt in E. rewrite inject_Z_plus. change (inject_Z 1) with 1. lra.
Qed.

Lemma round_half_even_comp (x y : Q) :
  x == y -> round_half_even x = round_half_even y.
Proof.
  intros H. unfold round_half_even.
  rewrite (Qfloor_comp _ _ H).
  assert (E : x - inject_Z (Qfloor y) == y - inject_Z (Qfloor y)) by (now rewrite H).
  now rewrite (Qcompare_comp _ _ E _ _ (Qeq_refl (1 # 2))).
Qed.

Lemma round_half_even_nonneg (x : Q) : 0 <= x -> (0 <= round_half_even x)%Z.
Proof.
  intros Hx. unfold round_half_even.
  assert (H0 : (0 <= Qfloor x)%Z).
  { change 0%Z with (Qfloor 0). now apply Qfloor_resp_le. }
  destruct (Qcompare _ _); [destruct (Z.even _)| |]; lia.
Qed.

Lemma half_ulp_bound (x : Q) :
  0 < x -> 2 ^ ulp_exp x * (1 # 2) <= x * u + eta.
Proof.
  intros Hx. unfold ulp_exp, u, eta.
  pose proof (ilog2_lower Hx) as Hl.
  pose proof (pow2_pos (-53)) as Hu.
  pose proof (pow2_pos (-1075)) as He.
  assert (H12 : (1 # 2) == 2 ^ (-1)) by reflexivity.
  destruct (Z.max_spec (ilog2 x - 52) (-1074)) as [[_ ->]|[_ ->]].
  - rewrite H12, <- pow2_add. change (-1074 + -1)%Z with (-1075)%Z.
    assert (0 <= x * 2 ^ (-53)) by (apply Qmult_le_0_compat; lra). lra.
  - rewrite H12, <- pow2_add.
    replace (ilog2 x - 52 + -1)%Z with (ilog2 x + -53)%Z by lia.
    rewrite pow2_add.
    assert (2 ^ ilog2 x * 2 ^ (-53) <= x * 2 ^ (-53)).
    { apply Qmult_le_r; assumption. }
    lra.
Qed.

Lemma rnd_pos_bounds (x : Q) :
  0 < x -> x - (x * u + eta) <= rnd_pos x <= x + (x * u + eta).
Proof.
  intros Hx. pose proof (half_ulp_bound Hx) as Hh.
  unfold rnd_pos.
  set (e := ulp_exp x) in *.
  pose proof (pow2_pos e) as He.
  pose proof (round_half_even_bounds (x / 2 ^ e)) as [Hlo Hhi].
  set (m := inject_Z (round_half_even (x / 2 ^ e))) in *.
  assert (E : x / 2 ^ e * 2 ^ e == x).
  { field. intros H0. rewrite H0 in He. now apply Qlt_irrefl in He. }
  assert (Hlo' : (x / 2 ^ e - (1 # 2)) * 2 ^ e <= m * 2 ^ e).
  { apply Qmult_le_r; assumption. }
  assert (Hhi' : m * 2 ^ e <= (x / 2 ^ e + (1 # 2)) * 2 ^ e).
  { apply Qmult_le_r; assumption. }
  split; [|].
  - apply Qle_trans with ((x / 2 ^ e - (1 # 2)) * 2 ^ e); [|exact Hlo'].
    setoid_replace ((x / 2 ^ e - (1 # 2)) * 2 ^ e)
      with (x / 2 ^ e * 2 ^ e - 2 ^ e * (1 # 2)) by ring.
    rewrite E. lra.
  - apply Qle_trans with ((x / 2 ^ e + (1 # 2)) * 2 ^ e); [exact Hhi'|].
    setoid_replace ((x / 2 ^ e + (1 # 2)) * 2 ^ e)
      with (x / 2 ^ e * 2 ^ e + 2 ^ e * (1 # 2)) by ring.
    rewrite E. lra.
Qed.

Lemma rnd_pos_nonneg (x : Q) : 0 < x -> 0 <= rnd_pos x.
Proof.
  intros Hx. unfold rnd_pos.
  apply Qmult_le_0_compat.
  - change 0 with (inject_Z 0). rewrite <- Zle_Qle.
    apply round_half_even_nonneg.
    apply Qle_shift_div_l; [apply pow2_pos | lra].
  - apply Qlt_le_weak, pow2_pos.
Qed.

(** Equal rationals round to the same term. *)
Lemma rnd_comp (x y : Q) : x == y -> rnd x = rnd y.
Proof.
  intros H. unfold rnd. now rewrite (Qred_complete _ _ H).
Qed.

Lemma rnd_zero (x : Q) : x == 0 -> rnd x = 0.
Proof.
  intros H. rewrite (rnd_comp H). reflexivity.
Qed.

Lemma rnd_of_pos (x : Q) : 0 < x -> rnd x == rnd_pos (Qred x).
Proof.
  intros Hx. unfold rnd.
  assert (Hr : 0 < Qred x) by now rewrite Qred_correct.
  apply Qgt_alt in Hr. rewrite Hr. apply Qred_correct.
Qed.

(** The rounding error on a non-negative number. *)
Lemma rnd_bounds (x : Q) :
  0 <= x -> x - (x * u + eta) <= rnd x <= x + (x * u + eta).
Proof.
  intros Hx.
  destruct (Qlt_le_dec 0 x) as [Hpos|H0].
  - rewrite (rnd_of_pos Hpos).
    assert (Hr : 0 < Qred x) by now rewrite Qred_correct.
    pose proof (rnd_pos_bounds Hr) as Hb.
    remember (rnd_pos (Qred x)) as r eqn:Er. clear Er.
    rewrite (Qred_correct x) in Hb. exact Hb.
  - assert (E : x == 0) by lra.
    rewrite (rnd_zero E). rewrite E.
    assert (0 < eta) by apply pow2_pos. lra.
Qed.

Lemma rnd_nonneg (x : Q) : 0 <= x -> 0 <= rnd x.
Proof.
  intros Hx.
  destruct (Qlt_le_dec 0 x) as [Hpos|H0].
  - rewrite (rnd_of_pos Hpos). apply rnd_pos_nonneg. now rewrite Qred_correct.
  - assert (E : x == 0) by lra. rewrite (rnd_zero E). lra.
Qed.

End Rounding.

(** The model against the kernel's binary64 numbers: a literal, a product
    and a product beyond [2^53]. *)
Lemma rnd_agrees_with_primitive_floats :
  option_map Qred (Float64.SF2Q (Prim2SF 0x1.3333333333333p-2%float))
  = Some (flt 0.30)
  /\ option_map Qred
       (Float64.SF2Q (Prim2SF (PrimFloat.mul (PrimFloat.of_uint63 20000)
                                             0x1.999999999999ap-3)))
     = Float64.int_mul 20000 (flt 0.20)
  /\ option_map Qred
       (Float64.SF2Q (Prim2SF (PrimFloat.mul
                                 (PrimFloat.of_uint63 1000000000000000000)
                                 0x1.1eb851eb851ecp-2)))
     = Float64.int_mul (10 ^ 18) (flt 0.28).
Proof.
  repeat split; vm_compute; reflexivity.
Qed.

(* ================================================================= *)
(** ** Finite results *)

Section Finite.
Import Float64.
Local Open Scope Q_scope.

Lemma is_finite_bounded (y : Q) : 0 <= y -> y < 2 ^ 1024 -> is_finite y = true.
Proof.
  intros H0 H1. unfold is_finite.
  destruct (Qle_bool (2 ^ 1024) (Qabs y)) eqn:E; [|reflexivity].
  apply Qle_bool_iff in E. rewrite Qabs_pos in E by assumption. lra.
Qed.

Lemma checked_rnd (x : Q) :
  0 <= x -> x < 2 ^ 1023 -> checked (rnd x) = Some (rnd x).
Proof.
  intros H0 H1. unfold checked.
  rewrite is_finite_bounded; [reflexivity | now apply rnd_nonneg |].
  destruct (rnd_bounds H0) as [_ Hhi]. unfold u, eta in Hhi. lra.
Qed.

Lemma inject_Z_le_pow2 (n k : Z) :
  (0 <= k)%Z -> (n <= 2 ^ k)%Z -> inject_Z n <= 2 ^ k.
Proof.
  intros Hk H. rewrite <- pow2_inject by exact Hk. now rewrite <- Zle_Qle.
Qed.

Lemma inject_Z_nonneg (n : Z) : (0 <= n)%Z -> 0 <= inject_Z n.
Proof.
  intros H. change 0 with (inject_Z 0). now rewrite <- Zle_Qle.
Qed.

Lemma int_mul_some (n : Z) (w : Q) :
  (0 <= n <= 2 ^ 1000)%Z -> 0 <= w -> w <= 2 ->
  int_mul n w = Some (rnd (rnd (inject_Z n) * w)).
Proof.
  intros [Hn0 Hn1] Hw0 Hw1.
  pose proof (inject_Z_nonneg Hn0) as HA0.
  pose proof (@inject_Z_le_pow2 n 1000 ltac:(lia) Hn1) as HA1.
  unfold int_mul, of_int.
  rewrite checked_rnd; [|exact HA0|lra].
  unfold mul.
  pose proof (rnd_nonneg HA0) as Ha0.
  destruct (rnd_bounds HA0) as [_ Ha1]. unfold u, eta in Ha1.
  assert (Hx0 : 0 <= rnd (inject_Z n) * w) by now apply Qmult_le_0_compat.
  assert (Hx1 : rnd (inject_Z n) * w <= rnd (inject_Z n) * 2).
  { apply Qmult_le_compat_nonneg; split; (assumption || apply Qle_refl). }
  rewrite checked_rnd; [reflexivity | exact Hx0 | lra].
Qed.

Lemma round_int_mul_amount (n : Z) (w : Q) :
  (0 <= n <= 2 ^ 1000)%Z -> 0 <= w -> w <= 2 ->
  round_int_mul n w = Some (amount n w).
Proof.
  intros Hn Hw0 Hw1. unfold round_int_mul. now rewrite int_mul_some.
Qed.

Lemma int_int_mul_trunc (n : Z) (w : Q) :
  (0 <= n <= 2 ^ 1000)%Z -> 0 <= w -> w <= 2 ->
  int_int_mul n w = Some (trunc (rnd (rnd (inject_Z n) * w))).
Proof.
  intros Hn Hw0 Hw1. unfold int_int_mul. now rewrite int_mul_some.
Qed.

End Finite.

(* ================================================================= *)
(** ** Rounding drift of the budget breakdown *)

Section Drift.
Import Float64.
Local Open Scope Q_scope.

(** One allocation: [round(B * w)] is within a half plus twice the share of
    the exact product, for a budget up to [2^51]. *)
Lemma amount_close (B : Z) (d w : Q) :
  (1 <= B <= 2 ^ 51)%Z -> 1 # 64 <= d -> d <= 1 -> w == flt d ->
  inject_Z B * d - ((1 # 2) + 2 * d) <= inject_Z (amount B w)
  /\ inject_Z (amount B w) <= inject_Z B * d + ((1 # 2) + 2 * d).
Proof.
  intros [HB1 HB2] Hd0 Hd1 Hw.
  assert (HA1 : 1 <= inject_Z B).
  { change 1 with (inject_Z 1). now rewrite <- Zle_Qle. }
  pose proof (@inject_Z_le_pow2 B 51 ltac:(lia) HB2) as HA2.
  set (A := inject_Z B) in *.
  assert (Hd0' : 0 <= d) by lra.
  destruct (@rnd_bounds d Hd0') as [Hw1 Hw2].
  pose proof (rnd_nonneg Hd0') as Hw0.
  change (rnd d) with (flt d) in Hw0, Hw1, Hw2. rewrite <- Hw in Hw0, Hw1, Hw2.
  assert (HA0 : 0 <= A) by lra.
  destruct (@rnd_bounds A HA0) as [Ha1 Ha2].
  pose proof (rnd_nonneg HA0) as Ha0.
  unfold amount. fold A.
  set (a := rnd A) in *.
  unfold u, eta in *.
  assert (Hlo : (A * (1 - 2 * 2 ^ (-53))) * (d * (1 - 2 * 2 ^ (-53))) <= a * w).
  { apply Qmult_le_compat_nonneg; split; lra. }
  assert (Hhi : a * w <= (A * (1 + 2 * 2 ^ (-53))) * (d * (1 + 2 * 2 ^ (-53)))).
  { apply Qmult_le_compat_nonneg; split; lra. }
  assert (HAd1 : 1 * (1 # 64) <= A * d).
  { apply Qmult_le_compat_nonneg; split; lra. }
  assert (HAd2 : A * d <= 2 ^ 51 * d).
  { apply Qmult_le_compat_nonneg; split; lra. }
  assert (Hx0 : 0 <= a * w) by now apply Qmult_le_0_compat.
  destruct (@rnd_bounds (a * w) Hx0) as [Hp1 Hp2].
  unfold u, eta in *.
  destruct (round_half_even_bounds (rnd (a * w))) as [Hv1 Hv2].
  set (x := a * w) in *. set (p := rnd x) in *.
  set (v := inject_Z (round_half_even p)) in *.
  split; lra.
Qed.

End Drift.

(* ================================================================= *)
(** ** Dictionaries *)

Lemma dict_get_in {V} (d : dict V) (k : string) (v : V) :
  dict_get d k = Some v -> In (k, v) d.
Proof.
  induction d as [|[k' v'] d IH]; simpl; [discriminate|].
  destruct (String.eqb_spec k k') as [->|Hne].
  - intros H; injection H as ->. now left.
  - intros H. right. now apply IH.
Qed.

Lemma get_or_default_in {V} (d : dict V) (k : string) (v : V) :
  get_or_default d k = Some v -> exists k', In (k', v) d.
Proof.
  unfold get_or_default.
  destruct (dict_get d "default") as [dflt|] eqn:Hd; [|discriminate].
  destruct (dict_get d k) as [w|] eqn:Hk; intros H; injection H as <-.
  - exists k. now apply dict_get_in.
  - exists "default". now apply dict_get_in.
Qed.

Lemma get_or_default_hit {V} (d : dict V) (k : string) (v dflt : V) :
  dict_get d "default" = Some dflt -> dict_get d k = Some v ->
  get_or_default d k = Some v.
Proof.
  intros Hd Hk. unfold get_or_default. now rewrite Hd, Hk.
Qed.

Lemma get_or_default_miss {V} (d : dict V) (k : string) (dflt : V) :
  dict_get d "default" = Some dflt -> dict_get d k = None ->
  get_or_default d k = Some dflt.
Proof.
  intros Hd Hk. unfold get_or_default. now rewrite Hd, Hk.
Qed.

Lemma get_or_default_total {V} (d : dict V) (k : string) (dflt : V) :
  dict_get d "default" = Some dflt -> exists v, get_or_default d k = Some v.
Proof.
  intros Hd. unfold get_or_default. rewrite Hd. eauto.
Qed.

Lemma dict_set_fresh {V} (d : dict V) (k : string) (v : V) :
  existsb (String.eqb k) (map fst d) = false ->
  dict_set d k v = d ++ [(k, v)].
Proof.
  induction d as [|[k' v'] d IH]; simpl; [reflexivity|].
  destruct (String.eqb k k'); simpl; [discriminate|].
  intros H. now rewrite IH.
Qed.

Lemma existsb_eqb_in (k : string) (ks : list string) :
  existsb (String.eqb k) ks = true <-> In k ks.
Proof.
  rewrite existsb_exists. split.
  - intros [x [Hin Hx]]. apply String.eqb_eq in Hx. now subst.
  - intros H. exists k. split; [exact H | apply String.eqb_refl].
Qed.

Lemma existsb_eqb_app (k : string) (ks ks' : list string) :
  existsb (String.eqb k) (ks ++ ks') = false <->
  existsb (String.eqb k) ks = false /\ existsb (String.eqb k) ks' = false.
Proof.
  rewrite existsb_app. apply orb_false_iff.
Qed.

(* ================================================================= *)
(** ** The budget breakdown *)

(** With distinct labels the loop appends one entry per label. *)
Lemma fill_breakdown_inv (B : Z) (tpl : dict Q) :
  forall (acc bd : dict Z),
  fill_breakdown B tpl acc = Some bd ->
  distinct (map fst tpl) = true ->
  (forall k, In k (map fst tpl) -> existsb (String.eqb k) (map fst acc) = false) ->
  exists vs,
    bd = acc ++ vs
    /\ map fst vs = map fst tpl
    /\ Forall2 (fun kw kv => Float64.round_int_mul B (snd kw) = Some (snd kv)) tpl vs.
Proof.
  induction tpl as [|[k w] tpl IH]; intros acc bd H Hd Hfresh; simpl in *.
  - injection H as <-. exists []. rewrite app_nil_r. repeat split; constructor.
  - destruct (Float64.round_int_mul B w) as [v|] eqn:Hv; [|discriminate].
    apply andb_prop in Hd as [Hk Hd]. apply negb_true_iff in Hk.
    rewrite dict_set_fresh in H by (apply Hfresh; now left).
    apply IH in H; [|exact Hd|].
    + destruct H as (vs & -> & Hkeys & Hvals).
      exists ((k, v) :: vs). rewrite <- app_assoc. simpl.
      repeat split; [now rewrite Hkeys | now constructor].
    + intros k' Hk'. rewrite map_app. apply existsb_eqb_app. split.
      * apply Hfresh. now right.
      * simpl. rewrite orb_false_r.
        destruct (String.eqb_spec k' k) as [->|]; [|reflexivity].
        apply existsb_eqb_in in Hk'. congruence.
Qed.

Lemma fill_breakdown_some (B : Z) (tpl : dict Q) :
  forall (acc : dict Z),
  distinct (map fst tpl) = true ->
  (forall k, In k (map fst tpl) -> existsb (String.eqb k) (map fst acc) = false) ->
  (forall kw, In kw tpl ->
     Float64.round_int_mul B (snd kw) = Some (Float64.amount B (snd kw))) ->
  fill_breakdown B tpl acc
  = Some (acc ++ map (fun kw => (fst kw, Float64.amount B (snd kw))) tpl).
Proof.
  induction tpl as [|[k w] tpl IH]; intros acc Hd Hfresh Hval; simpl in *.
  - now rewrite app_nil_r.
  - pose proof (Hval (k, w) (or_introl eq_refl)) as Hkw. simpl in Hkw.
    rewrite Hkw.
    apply andb_prop in Hd as [Hk Hd]. apply negb_true_iff in Hk.
    rewrite dict_set_fresh by (apply Hfresh; now left).
    rewrite IH; [now rewrite <- app_assoc | exact Hd | | ].
    + intros k' Hk'. rewrite map_app. apply existsb_eqb_app. split.
      * apply Hfresh. now right.
      * simpl. rewrite orb_false_r.
        destruct (String.eqb_spec k' k) as [->|]; [|reflexivity].
        apply existsb_eqb_in in Hk'. congruence.
    + intros kw Hin. apply Hval. now right.
Qed.

(** Every template of the table is well formed. *)
Lemma templates_ok :
  Forall (fun kt => template_ok (snd kt) = true) BUDGET_TEMPLATES.
Proof.
  repeat constructor.
Qed.

Lemma templates_sum_near_one :
  Forall (fun kt => sum_near_one (snd kt) = true) BUDGET_TEMPLATES.
Proof.
  repeat constructor.
Qed.

Section Drift.
Import Float64.
Local Open Scope Q_scope.

Lemma weight_ok_bounds (kw : string * Q) :
  weight_ok kw = true ->
  snd kw == flt (decimal_of (snd kw))
  /\ 1 # 64 <= decimal_of (snd kw) /\ decimal_of (snd kw) <= 1.
Proof.
  unfold weight_ok. intros H.
  apply andb_prop in H as [H H3]. apply andb_prop in H as [H1 H2].
  apply Qeq_bool_iff in H1. apply Qle_bool_iff in H2, H3.
  repeat split; [now symmetry | assumption | assumption].
Qed.

Lemma weight_ok_range (kw : string * Q) :
  weight_ok kw = true -> 0 <= snd kw /\ snd kw <= 2.
Proof.
  intros H. apply weight_ok_bounds in H as (Hw & H1 & H2).
  assert (Hd0 : 0 <= decimal_of (snd kw)) by lra.
  destruct (rnd_bounds Hd0) as [_ Hhi].
  pose proof (rnd_nonneg Hd0) as Hlo.
  change (rnd (decimal_of (snd kw))) with (flt (decimal_of (snd kw))) in Hhi, Hlo.
  rewrite <- Hw in Hhi, Hlo. unfold u, eta in Hhi. split; lra.
Qed.

Lemma sum_amounts_close (B : Z) (tpl : dict Q) :
  (1 <= B <= 2 ^ 51)%Z -> forallb weight_ok tpl = true ->
  let S := sum_decimals tpl in
  let n := inject_Z (Z.of_nat (List.length tpl)) in
  inject_Z B * S - (n * (1 # 2) + 2 * S) <= inject_Z (sum_values (amounts B tpl))
  /\ inject_Z (sum_values (amounts B tpl)) <= inject_Z B * S + (n * (1 # 2) + 2 * S).
Proof.
  intros HB. induction tpl as [|kw tpl IH]; intros Hok.
  - cbn zeta. unfold amounts, sum_values, sum_decimals.
    cbn [map fold_right List.length Z.of_nat].
    change (inject_Z 0) with 0. split; lra.
  - cbn [forallb] in Hok. apply andb_prop in Hok as [Hkw Hok].
    specialize (IH Hok). cbn zeta in IH. destruct IH as [IH1 IH2].
    apply weight_ok_bounds in Hkw as (Hw & Hd1 & Hd2).
    destruct (amount_close HB Hd1 Hd2 Hw) as [Ha1 Ha2].
    cbn zeta.
    unfold amounts, sum_values, sum_decimals in *.
    cbn [map fold_right snd List.length].
    rewrite inject_Z_plus, Nat2Z.inj_succ, <- Z.add_1_r, inject_Z_plus.
    change (inject_Z 1) with 1.
    split; lra.
Qed.

End Drift.

(** The breakdown of a well-formed template exists for a budget up to
    [2^51] and adds up to the budget, give or take the number of labels. *)
Lemma breakdown_drift (B : Z) (tpl : dict Q) :
  template_ok tpl = true -> (1 <= B <= 2 ^ 51)%Z ->
  exists bd,
    fill_breakdown B tpl [] = Some bd
    /\ (Z.abs (sum_values bd - B) <= Z.of_nat (List.length tpl))%Z.
Proof.
  intros Hok HB. unfold template_ok in Hok.
  apply andb_prop in Hok as [Hok Hsum]. apply andb_prop in Hok as [Hok Hw].
  apply andb_prop in Hok as [Hd Hn].
  apply Nat.leb_le in Hn. apply Qeq_bool_iff in Hsum.
  exists (amounts B tpl). split.
  - apply (@fill_breakdown_some B tpl []); [exact Hd | reflexivity |].
    intros kw Hin. rewrite forallb_forall in Hw.
    destruct (weight_ok_range _ (Hw kw Hin)) as [H0 H2].
    apply round_int_mul_amount; [lia | exact H0 | exact H2].
  - destruct (sum_amounts_close tpl HB Hw) as [H1 H2]. cbn zeta in H1, H2.
    rewrite Hsum in H1, H2.
    assert (Hn' : (4 <= inject_Z (Z.of_nat (List.length tpl)))%Q).
    { change 4%Q with (inject_Z 4). rewrite <- Zle_Qle. lia. }
    set (n := Z.of_nat (List.length tpl)) in *.
    set (s := sum_values (amounts B tpl)) in *.
    assert (Hlo : (inject_Z (B - n) <= inject_Z s)%Q).
    { unfold Zminus. rewrite inject_Z_plus, inject_Z_opp. lra. }
    assert (Hhi : (inject_Z s <= inject_Z (B + n))%Q).
    { rewrite inject_Z_plus. lra. }
    rewrite <- Zle_Qle in Hlo, Hhi. lia.
Qed.

Lemma template_of_in (ty : string) (tpl : dict Q) :
  dict_get BUDGET_TEMPLATES ty = Some tpl -> template_of ty = tpl.
Proof.
  intros H. unfold template_of. now rewrite H.
Qed.

(** C5, as the code has it.  The weights of every template add up to 1.0
    within 1e-6, in floating point and exactly; and for every template and every
    budget from 1 to [2^51] the breakdown exists and its amounts, each
    [round(B * weight)], add up to the budget give or take the number of
    labels of the template. *)
Theorem budget_breakdown_drift (ty : string) (tpl : dict Q) :
  In (ty, tpl) BUDGET_TEMPLATES ->
  (exists s, Float64.sum (map snd tpl) = Some s
             /\ (Qabs (s - 1) <= 0.000001)%Q
             /\ (Qabs (exact_sum tpl - 1) <= 0.000001)%Q)
  /\ forall B, (1 <= B <= 2 ^ 51)%Z ->
       exists bd,
         fill_breakdown B tpl [] = Some bd
         /\ (Z.abs (sum_values bd - B) <= Z.of_nat (List.length tpl))%Z.
Proof.
  intros Hin. split.
  - pose proof templates_sum_near_one as H.
    rewrite Forall_forall in H. specialize (H _ Hin). cbn [snd] in H.
    unfold sum_near_one in H.
    destruct (Float64.sum (map snd tpl)) as [s|]; [|discriminate].
    apply andb_prop in H as [Hf He].
    exists s. split; [reflexivity | split; now apply Qle_bool_iff].
  - intros B HB. apply breakdown_drift; [|exact HB].
    pose proof templates_ok as H.
    rewrite Forall_forall in H. exact (H _ Hin).
Qed.

Lemma budget_breakdown_drift_witness :
  exists bd,
    fill_breakdown 20000 (template_of "wedding") [] = Some bd
    /\ (Z.abs (sum_values bd - 20000) <= 7)%Z.
Proof.
  refine (proj2 (@budget_breakdown_drift "wedding" (template_of "wedding") _)
                20000%Z _).
  - left. reflexivity.
  - lia.
Defined.

(** C5, as stated for every positive budget, fails: at the budget [10^18]
    the six amounts of the gala template add up to [10^18 + 32]. *)
Lemma budget_breakdown_drift_large_budget :
  exists bd,
    In ("gala", template_of "gala") BUDGET_TEMPLATES
    /\ fill_breakdown (10 ^ 18) (template_of "gala") [] = Some bd
    /\ (sum_values bd - 10 ^ 18 = 32)%Z
    /\ ~ (Z.abs (sum_values bd - 10 ^ 18)
          <= Z.of_nat (List.length (template_of "gala")))%Z.
Proof.
  eexists. split; [do 5 right; left; reflexivity|].
  split; [vm_compute; reflexivity|].
  split; [vm_compute; reflexivity|].
  vm_compute. intros H. apply H. reflexivity.
Qed.

(* ================================================================= *)
(** ** Sorting by rating *)

Lemma insert_by_rating_perm (x : artist) (l : list artist) :
  Permutation (insert_by_rating x l) (x :: l).
Proof.
  induction l as [|y l IH]; simpl; [reflexivity|].
  destruct (Qle_bool (rating y) (rating x)); [reflexivity|].
  rewrite IH. apply perm_swap.
Qed.

Lemma sort_by_rating_desc_perm (l : list artist) :
  Permutation (sort_by_rating_desc l) l.
Proof.
  induction l as [|x l IH]; simpl; [reflexivity|].
  rewrite insert_by_rating_perm. now constructor.
Qed.

Lemma rating_ge_trans (a b c : artist) :
  rating_ge a b -> rating_ge b c -> rating_ge a c.
Proof.
  unfold rating_ge. intros H1 H2. eapply Qle_trans; eassumption.
Qed.

Lemma insert_by_rating_sorted (x : artist) (l : list artist) :
  StronglySorted rating_ge l -> StronglySorted rating_ge (insert_by_rating x l).
Proof.
  induction l as [|y l IH]; intros Hs; simpl.
  - constructor; constructor.
  - destruct (Qle_bool (rating y) (rating x)) eqn:E.
    + apply Qle_bool_iff in E.
      constructor; [exact Hs|].
      inversion Hs as [|? ? Hl Hy]; subst.
      constructor; [exact E|].
      rewrite Forall_forall in *. intros z Hz.
      apply rating_ge_trans with y; [exact E | now apply Hy].
    + assert (Hlt : (rating x < rating y)%Q).
      { apply Qnot_le_lt. intros H. apply Qle_bool_iff in H. congruence. }
      inversion Hs as [|? ? Hl Hy]; subst.
      constructor; [now apply IH|].
      rewrite Forall_forall in *. intros z Hz.
      apply (Permutation_in _ (insert_by_rating_perm x l)) in Hz.
      destruct Hz as [<-|Hz]; [now apply Qlt_le_weak | now apply Hy].
Qed.

Lemma sort_by_rating_desc_sorted (l : list artist) :
  StronglySorted rating_ge (sort_by_rating_desc l).
Proof.
  induction l as [|x l IH]; simpl; [constructor|].
  now apply insert_by_rating_sorted.
Qed.

(** Stability: the records of one rating keep their order. *)
Lemma insert_by_rating_stable (r : Q) (x : artist) (l : list artist) :
  filter (same_rating r) (insert_by_rating x l) = filter (same_rating r) (x :: l).
Proof.
  induction l as [|y l IH]; [reflexivity|].
  cbn [insert_by_rating].
  destruct (Qle_bool (rating y) (rating x)) eqn:E; [reflexivity|].
  assert (Hlt : (rating x < rating y)%Q).
  { apply Qnot_le_lt. intros H. apply Qle_bool_iff in H. congruence. }
  cbn [filter] in *. rewrite IH.
  destruct (same_rating r x) eqn:Ex; [|reflexivity].
  destruct (same_rating r y) eqn:Ey; [|reflexivity].
  unfold same_rating in Ex, Ey. apply Qeq_bool_iff in Ex, Ey.
  rewrite Ex, Ey in Hlt. now apply Qlt_irrefl in Hlt.
Qed.

Lemma sort_by_rating_desc_stable (r : Q) (l : list artist) :
  filter (same_rating r) (sort_by_rating_desc l) = filter (same_rating r) l.
Proof.
  induction l as [|x l IH]; [reflexivity|].
  cbn [sort_by_rating_desc fold_right].
  rewrite insert_by_rating_stable. cbn [filter].
  fold (sort_by_rating_desc l). now rewrite IH.
Qed.

Lemma firstn_sorted {A} (R : A -> A -> Prop) (n : nat) (l : list A) :
  StronglySorted R l -> StronglySorted R (firstn n l).
Proof.
  revert n. induction l as [|x l IH]; intros n Hs.
  - rewrite firstn_nil. constructor.
  - destruct n as [|n]; [constructor|].
    inversion Hs as [|? ? Hl Hx]; subst. cbn [firstn].
    constructor; [now apply IH|].
    rewrite Forall_forall in *. intros y Hy. apply Hx.
    rewrite <- (firstn_skipn n l). apply in_or_app. now left.
Qed.

Lemma firstn_in {A} (n : nat) (l : list A) (x : A) :
  In x (firstn n l) -> In x l.
Proof.
  intros H. rewrite <- (firstn_skipn n l). apply in_or_app. now left.
Qed.

Lemma sort_ranked_prefix (n : nat) (pool : list artist) :
  ranked_prefix n (firstn n (sort_by_rating_desc pool)) pool.
Proof.
  exists (sort_by_rating_desc pool).
  split; [reflexivity|].
  split; [apply sort_by_rating_desc_perm|].
  split; [apply sort_by_rating_desc_sorted|].
  intros r. apply sort_by_rating_desc_stable.
Qed.

(* ================================================================= *)
(** ** Artist matching *)

Lemma sort_length (l : list artist) :
  List.length (sort_by_rating_desc l) = List.length l.
Proof.
  apply Permutation_length, sort_by_rating_desc_perm.
Qed.

(** With two preferred candidates or more the shortlist is their ranking;
    with fewer, the preferred candidates come first and the ranking of the
    widened pool follows. *)
Lemma match_artists_cases (all : list artist) (cats : list string) (cap : Z) :
  let preferred := preferred_pool all cats cap in
  let top := firstn 3 (sort_by_rating_desc preferred) in
  (2 <= List.length preferred ->
     match_artists all cats cap = top)%nat
  /\ (List.length preferred < 2 ->
      top = sort_by_rating_desc preferred
      /\ match_artists all cats cap
         = firstn 3 (sort_by_rating_desc preferred
                     ++ sort_by_rating_desc (widened_pool all top cap)))%nat.
Proof.
  cbn zeta. unfold match_artists.
  fold (preferred_pool all cats cap).
  set (preferred := preferred_pool all cats cap).
  set (top := firstn 3 (sort_by_rating_desc preferred)).
  fold (widened_pool all top cap).
  assert (Hlen : List.length top = Nat.min 3 (List.length preferred)).
  { unfold top. now rewrite length_firstn, sort_length. }
  split; intros H.
  - destruct (Nat.ltb_spec (List.length top) 2); [lia | reflexivity].
  - destruct (Nat.ltb_spec (List.length top) 2); [|lia].
    assert (Etop : top = sort_by_rating_desc preferred).
    { unfold top. apply firstn_all2. rewrite sort_length. lia. }
    split; [exact Etop|]. now rewrite <- Etop.
Qed.

Lemma match_artists_length (all : list artist) (cats : list string) (cap : Z) :
  (List.length (match_artists all cats cap) <= 3)%nat.
Proof.
  unfold match_artists.
  destruct (_ <? 2)%nat; rewrite length_firstn; lia.
Qed.

Lemma match_artists_affordable (all : list artist) (cats : list string) (cap : Z) :
  Forall (fun a => (price_min a <= cap)%Z /\ In a all) (match_artists all cats cap).
Proof.
  assert (Hpool : forall f a,
             In a (sort_by_rating_desc
                     (filter (fun a => (price_min a <=? cap)%Z && f a) all)) ->
             (price_min a <= cap)%Z /\ In a all).
  { intros f a Ha.
    apply (Permutation_in _ (sort_by_rating_desc_perm _)) in Ha.
    apply filter_In in Ha as [Hin Hc].
    apply andb_prop in Hc as [Hc _]. apply Z.leb_le in Hc. now split. }
  rewrite Forall_forall. intros a Ha. unfold match_artists in Ha.
  destruct (_ <? 2)%nat.
  - apply firstn_in in Ha. apply in_app_or in Ha as [Ha|Ha].
    + apply firstn_in in Ha. exact (Hpool _ _ Ha).
    + exact (Hpool _ _ Ha).
  - apply firstn_in in Ha. exact (Hpool _ _ Ha).
Qed.

Lemma sort_short (l : list artist) :
  (List.length l < 2)%nat -> sort_by_rating_desc l = l.
Proof.
  destruct l as [|x [|y l]]; simpl; intros H; (reflexivity || lia).
Qed.

(** The widened shortlist: the preferred candidates, then the ranking of
    the others that fit the sub-budget. *)
Lemma match_artists_widened (all : list artist) (cats : list string) (cap : Z) :
  let preferred := preferred_pool all cats cap in
  (List.length preferred < 2)%nat ->
  exists rest,
    match_artists all cats cap = preferred ++ rest
    /\ ranked_prefix (3 - List.length preferred) rest
                     (widened_pool all preferred cap).
Proof.
  cbn zeta. intros H.
  destruct (match_artists_cases all cats cap) as [_ Hw]. cbn zeta in Hw.
  destruct (Hw H) as [Etop ->]. rewrite Etop.
  rewrite (sort_short _ H).
  exists (firstn (3 - List.length (preferred_pool all cats cap))
                 (sort_by_rating_desc
                    (widened_pool all (preferred_pool all cats cap) cap))).
  split; [|apply sort_ranked_prefix].
  rewrite firstn_app. f_equal. apply firstn_all2. lia.
Qed.

(* ================================================================= *)
(** ** [generate_event_plan] *)

Lemma generate_event_plan_inv (catalog : option (list artist))
      (ev_name : string) (B : Z) (query : string) (p : event_plan) :
  generate_event_plan catalog ev_name B query = Some p ->
  let ty := detect_event_type (query ++ " " ++ ev_name) in
  exists tpl tl tps cats bd dflt all,
    get_or_default BUDGET_TEMPLATES ty = Some tpl
    /\ get_or_default EVENT_TIMELINES ty = Some tl
    /\ get_or_default PRO_TIPS ty = Some tps
    /\ get_or_default ARTIST_CATEGORY_FOR_EVENT ty = Some cats
    /\ fill_breakdown B tpl [] = Some bd
    /\ Float64.int_int_mul B (flt 0.20) = Some dflt
    /\ catalog = Some all
    /\ p = assemble_plan all ev_name ty B bd tl tps cats dflt.
Proof.
  unfold generate_event_plan. cbn zeta.
  set (ty := detect_event_type (query ++ " " ++ ev_name)).
  destruct (get_or_default BUDGET_TEMPLATES ty) as [tpl|]; [|discriminate].
  destruct (get_or_default EVENT_TIMELINES ty) as [tl|]; [|discriminate].
  destruct (get_or_default PRO_TIPS ty) as [tps|]; [|discriminate].
  destruct (get_or_default ARTIST_CATEGORY_FOR_EVENT ty) as [cats|]; [|discriminate].
  destruct (fill_breakdown B tpl []) as [bd|] eqn:Hbd; [|discriminate].
  destruct (Float64.int_int_mul B (flt 0.20)) as [dflt|] eqn:Hdflt; [|discriminate].
  destruct catalog as [all|]; [|discriminate].
  intros H. injection H as <-.
  exists tpl, tl, tps, cats, bd, dflt, all.
  repeat split; (reflexivity || assumption).
Qed.

Lemma generate_event_plan_eq (all : list artist) (ev_name : string) (B : Z)
      (query : string) tpl tl tps cats bd dflt :
  let ty := detect_event_type (query ++ " " ++ ev_name) in
  get_or_default BUDGET_TEMPLATES ty = Some tpl ->
  get_or_default EVENT_TIMELINES ty = Some tl ->
  get_or_default PRO_TIPS ty = Some tps ->
  get_or_default ARTIST_CATEGORY_FOR_EVENT ty = Some cats ->
  fill_breakdown B tpl [] = Some bd ->
  Float64.int_int_mul B (flt 0.20) = Some dflt ->
  generate_event_plan (Some all) ev_name B query
  = Some (assemble_plan all ev_name ty B bd tl tps cats dflt).
Proof.
  cbn zeta. intros H1 H2 H3 H4 H5 H6.
  unfold generate_event_plan. cbn zeta.
  rewrite H1, H2, H3, H4, H5, H6. reflexivity.
Qed.

Lemma template_in_table_ok (ty : string) (tpl : dict Q) :
  get_or_default BUDGET_TEMPLATES ty = Some tpl -> template_ok tpl = true.
Proof.
  intros H. apply get_or_default_in in H as [k Hin].
  pose proof templates_ok as Hok. rewrite Forall_forall in Hok.
  exact (Hok _ Hin).
Qed.

Lemma template_ok_parts (tpl : dict Q) :
  template_ok tpl = true ->
  distinct (map fst tpl) = true /\ forallb weight_ok tpl = true.
Proof.
  unfold template_ok. intros H.
  apply andb_prop in H as [H _]. apply andb_prop in H as [H Hw].
  apply andb_prop in H as [Hd _]. now split.
Qed.

Lemma fill_breakdown_total (B : Z) (tpl : dict Q) :
  template_ok tpl = true -> (0 <= B <= 2 ^ 1000)%Z ->
  fill_breakdown B tpl [] = Some (amounts B tpl).
Proof.
  intros Hok HB. apply template_ok_parts in Hok as [Hd Hw].
  apply (@fill_breakdown_some B tpl []); [exact Hd | reflexivity |].
  intros kw Hin. rewrite forallb_forall in Hw.
  destruct (weight_ok_range _ (Hw kw Hin)) as [H0 H2].
  now apply round_int_mul_amount.
Qed.

(** A plan is produced whenever the catalog loads and the budget is an
    integer from 0 to [2^1000]. *)
Lemma generate_event_plan_total (all : list artist) (ev_name : string) (B : Z)
      (query : string) :
  (0 <= B <= 2 ^ 1000)%Z ->
  exists p, generate_event_plan (Some all) ev_name B query = Some p.
Proof.
  intros HB.
  set (ty := detect_event_type (query ++ " " ++ ev_name)).
  destruct (@get_or_default_total _ BUDGET_TEMPLATES ty _ eq_refl) as [tpl H1].
  destruct (@get_or_default_total _ EVENT_TIMELINES ty _ eq_refl) as [tl H2].
  destruct (@get_or_default_total _ PRO_TIPS ty _ eq_refl) as [tps H3].
  destruct (@get_or_default_total _ ARTIST_CATEGORY_FOR_EVENT ty _ eq_refl) as [cats H4].
  pose proof (@fill_breakdown_total B tpl (@template_in_table_ok ty tpl H1) HB) as H5.
  assert (H6 : Float64.int_int_mul B (flt 0.20)
               = Some (Float64.trunc (Float64.rnd (Float64.rnd (inject_Z B) * flt 0.20)))).
  { apply int_int_mul_trunc; [exact HB | |]; vm_compute; discriminate. }
  eexists. exact (@generate_event_plan_eq all ev_name B query _ _ _ _ _ _ H1 H2 H3 H4 H5 H6).
Qed.

(* ================================================================= *)
(** ** The plan of a wedding with a budget of 20000 *)

Lemma wedding_breakdown :
  fill_breakdown 20000 (template_of "wedding") []
  = Some (amounts 20000 (template_of "wedding")).
Proof. vm_compute. reflexivity. Qed.

Lemma wedding_default_share : Float64.int_int_mul 20000 (flt 0.20) = Some 4000%Z.
Proof. vm_compute. reflexivity. Qed.

Lemma wedding_entertainment (dflt : Z) :
  next_entertainment (amounts 20000 (template_of "wedding")) dflt = 4000%Z.
Proof. vm_compute. reflexivity. Qed.

(** C4, as the code has it.  For a wedding and a budget of 20000 the plan
    exists whatever the catalog holds; the entertainment sub-budget is the
    amount allocated to the entertainment label, [round(20000 * 0.20)] =
    4000; the shortlist has at most 3 entries, each a catalog record with
    [price_min <= 4000].  When two or more providers of a preferred category
    fit the sub-budget, the shortlist is the first three of them in
    descending order of rating, ties in catalog order.  When fewer than two
    do, they come first whatever their rating, followed by the other
    providers that fit the sub-budget in descending order of rating, ties in
    catalog order. *)
Theorem wedding_plan_shortlist (all : list artist) (ev_name query : string) :
  detect_event_type (query ++ " " ++ ev_name) = "wedding" ->
  exists p,
    generate_event_plan (Some all) ev_name 20000 query = Some p
    /\ entertainment_budget p = 4000%Z
    /\ Float64.round_int_mul 20000 (flt 0.20) = Some 4000%Z
    /\ dict_get (breakdown p) "🎵 Entertainment" = Some 4000%Z
    /\ (List.length (artists p) <= 3)%nat
    /\ Forall (fun a => (price_min a <= 4000)%Z /\ In a all) (artists p)
    /\ let preferred := preferred_pool all (categories_of "wedding") 4000 in
       ((2 <= List.length preferred)%nat ->
          ranked_prefix 3 (artists p) preferred
          /\ StronglySorted rating_ge (artists p))
       /\ ((List.length preferred < 2)%nat ->
          exists rest,
            artists p = preferred ++ rest
            /\ ranked_prefix (3 - List.length preferred) rest
                             (widened_pool all preferred 4000)).
Proof.
  intros Hty.
  pose proof (@generate_event_plan_eq all ev_name 20000 query
                (template_of "wedding")
                (match dict_get EVENT_TIMELINES "wedding" with Some t => t | None => [] end)
                (match dict_get PRO_TIPS "wedding" with Some t => t | None => [] end)
                (categories_of "wedding")
                (amounts 20000 (template_of "wedding")) 4000%Z) as E.
  cbn zeta in E. rewrite Hty in E.
  specialize (E eq_refl eq_refl eq_refl eq_refl wedding_breakdown wedding_default_share).
  eexists. split; [exact E|].
  unfold assemble_plan. cbn [entertainment_budget breakdown artists].
  rewrite wedding_entertainment.
  split; [reflexivity|].
  split; [vm_compute; reflexivity|].
  split; [vm_compute; reflexivity|].
  split; [apply match_artists_length|].
  split; [apply match_artists_affordable|].
  cbn zeta. split.
  - intros H2.
    destruct (match_artists_cases all (categories_of "wedding") 4000) as [Hc _].
    cbn zeta in Hc. rewrite (Hc H2).
    split; [apply sort_ranked_prefix|].
    apply firstn_sorted, sort_by_rating_desc_sorted.
  - intros H2. now apply match_artists_widened.
Qed.

Lemma wedding_plan_shortlist_witness :
  exists p,
    generate_event_plan (Some [singer_3; magician_5; dj_4]) "Wedding" 20000
                        "plan my wedding" = Some p
    /\ entertainment_budget p = 4000%Z
    /\ (List.length (artists p) <= 3)%nat.
Proof.
  destruct (@wedding_plan_shortlist [singer_3; magician_5; dj_4] "Wedding"
              "plan my wedding" eq_refl)
    as (p & Hp & He & _ & _ & Hl & _).
  exists p. repeat split; assumption.
Defined.

(** C4, as stated, fails on the order: with one singer rated 3.0 and one
    magician rated 5.0, both within the sub-budget, the singer is the only
    provider of a preferred category and is listed first. *)
Lemma wedding_shortlist_not_sorted :
  exists p,
    generate_event_plan (Some sample_catalog) "Wedding" 20000 "plan my wedding"
    = Some p
    /\ event_type p = "wedding"
    /\ artists p = [singer_3; magician_5]
    /\ ~ StronglySorted rating_ge (artists p).
Proof.
  exists sample_plan.
  split; [vm_compute; reflexivity|].
  split; [reflexivity|].
  split; [reflexivity|].
  intros H. change (artists sample_plan) with [singer_3; magician_5] in H.
  inversion H as [|? ? _ Hall]; subst.
  inversion Hall as [|? ? Hge _]; subst.
  unfold rating_ge in Hge. vm_compute in Hge. apply Hge. reflexivity.
Qed.

(* ================================================================= *)
(** ** Concert plans *)

(** C9. [detect_event_type] can answer ["concert"]; the budget table and the
    category table have a ["concert"] entry; the timeline table and the tips
    table have none.  So every plan for a concert carries the breakdown of
    the concert template with the default timeline and the default tips;
    and such a plan is produced for every catalog and every budget from 0 to
    [2^1000]. *)
Theorem concert_plan_uses_default_timeline_and_tips :
  detect_event_type "a concert in the park" = "concert"
  /\ In "concert" (map fst BUDGET_TEMPLATES)
  /\ In "concert" (map fst ARTIST_CATEGORY_FOR_EVENT)
  /\ dict_get EVENT_TIMELINES "concert" = None
  /\ dict_get PRO_TIPS "concert" = None
  /\ (forall catalog ev_name B query p,
        detect_event_type (query ++ " " ++ ev_name) = "concert" ->
        generate_event_plan catalog ev_name B query = Some p ->
        event_type p = "concert"
        /\ fill_breakdown B (template_of "concert") [] = Some (breakdown p)
        /\ dict_get EVENT_TIMELINES "default" = Some (timeline p)
        /\ dict_get PRO_TIPS "default" = Some (tips p))
  /\ (forall all ev_name B query,
        detect_event_type (query ++ " " ++ ev_name) = "concert" ->
        (0 <= B <= 2 ^ 1000)%Z ->
        exists p, generate_event_plan (Some all) ev_name B query = Some p).
Proof.
  split; [reflexivity|].
  split; [simpl; tauto|].
  split; [simpl; tauto|].
  split; [reflexivity|].
  split; [reflexivity|].
  split.
  - intros catalog ev_name B query p Hty Hp.
    apply generate_event_plan_inv in Hp. cbn zeta in Hp. rewrite Hty in Hp.
    destruct Hp as (tpl & tl & tps & cats & bd & dflt & all
                    & H1 & H2 & H3 & H4 & H5 & H6 & Hc & ->).
    unfold assemble_plan. cbn [event_type breakdown timeline tips].
    assert (E1 : get_or_default BUDGET_TEMPLATES "concert"
                 = Some (template_of "concert")) by reflexivity.
    rewrite E1 in H1. injection H1 as <-.
    split; [reflexivity|].
    split; [exact H5|].
    split.
    + rewrite <- H2. reflexivity.
    + rewrite <- H3. reflexivity.
  - intros all ev_name B query _ HB. now apply generate_event_plan_total.
Qed.

Lemma concert_plan_uses_default_timeline_and_tips_witness :
  event_type sample_concert_plan = "concert"
  /\ fill_breakdown 5000 (template_of "concert") []
     = Some (breakdown sample_concert_plan)
  /\ dict_get EVENT_TIMELINES "default" = Some (timeline sample_concert_plan)
  /\ dict_get PRO_TIPS "default" = Some (tips sample_concert_plan).
Proof.
  refine (proj1 (proj2 (proj2 (proj2 (proj2 (proj2
            concert_plan_uses_default_timeline_and_tips)))))
            (Some sample_catalog) "Concert Night" 5000%Z "plan a concert"
            sample_concert_plan _ _).
  - reflexivity.
  - vm_compute. reflexivity.
Defined.

(* ================================================================= *)
(** ** The entertainment sub-budget *)

Lemma templates_have_entertainment :
  Forall (fun kt => existsb is_entertainment (map fst (snd kt)) = true)
         BUDGET_TEMPLATES.
Proof.
  repeat constructor.
Qed.

Lemma is_entertainment_occurs (k : string) :
  is_entertainment k = true <->
  occurs_in "entertainment" (lower k) \/ occurs_in "artist" (lower k).
Proof.
  unfold is_entertainment. rewrite orb_true_iff, !contains_occurs. tauto.
Qed.

Lemma find_by_key {V} (f : string -> bool) (d : dict V) :
  existsb f (map fst d) = true ->
  exists k v, find (fun kv => f (fst kv)) d = Some (k, v)
              /\ f k = true /\ In (k, v) d.
Proof.
  induction d as [|[k v] d IH]; simpl; [discriminate|].
  destruct (f k) eqn:Hk.
  - intros _. exists k, v. repeat split; auto.
  - simpl. intros H. destruct (IH H) as (k' & v' & Hf & Hk' & Hin).
    exists k', v'. repeat split; auto.
Qed.

(** C10. Every template of the budget table has a label whose lower-cased
    form contains "entertainment" or "artist".  So in every plan the
    entertainment sub-budget is an amount of the breakdown, the one of the
    first such label, and the value handed to [next] as a default is never
    the result. *)
Theorem entertainment_budget_is_allocated :
  (forall ty tpl, In (ty, tpl) BUDGET_TEMPLATES ->
     exists k, In k (map fst tpl)
       /\ (occurs_in "entertainment" (lower k) \/ occurs_in "artist" (lower k)))
  /\ (forall catalog ev_name B query p,
        generate_event_plan catalog ev_name B query = Some p ->
        exists k,
          In (k, entertainment_budget p) (breakdown p)
          /\ is_entertainment k = true
          /\ forall dflt,
               next_entertainment (breakdown p) dflt = entertainment_budget p).
Proof.
  pose proof templates_have_entertainment as Hent.
  rewrite Forall_forall in Hent.
  split.
  - intros ty tpl Hin. specialize (Hent _ Hin). cbn [snd] in Hent.
    apply existsb_exists in Hent as [k [Hk Hf]].
    exists k. split; [exact Hk | now apply is_entertainment_occurs].
  - intros catalog ev_name B query p Hp.
    apply generate_event_plan_inv in Hp. cbn zeta in Hp.
    destruct Hp as (tpl & tl & tps & cats & bd & dflt & all
                    & H1 & _ & _ & _ & H5 & _ & _ & ->).
    pose proof (template_in_table_ok H1) as Hok.
    apply template_ok_parts in Hok as [Hd _].
    apply get_or_default_in in H1 as [ty' Hin].
    specialize (Hent _ Hin). cbn [snd] in Hent.
    apply fill_breakdown_inv in H5; [|exact Hd|reflexivity].
    destruct H5 as (vs & -> & Hkeys & _). cbn [app] in *.
    rewrite <- Hkeys in Hent.
    destruct (find_by_key is_entertainment vs Hent) as (k & v & Hf & Hk & Hkv).
    unfold assemble_plan. cbn [entertainment_budget breakdown].
    unfold next_entertainment. rewrite Hf.
    exists k. repeat split; assumption.
Qed.

Lemma entertainment_budget_is_allocated_witness :
  exists k,
    In (k, entertainment_budget sample_plan) (breakdown sample_plan)
    /\ is_entertainment k = true
    /\ forall dflt,
         next_entertainment (breakdown sample_plan) dflt
         = entertainment_budget sample_plan.
Proof.
  refine (proj2 entertainment_budget_is_allocated
            (Some sample_catalog) "Wedding" 20000%Z "plan my wedding"
            sample_plan _).
  vm_compute. reflexivity.
Defined.

(* ================================================================= *)
(** ** Retrieval *)

Lemma py_prefix_nonneg {A} (k : Z) (l : list A) :
  (0 <= k)%Z -> py_prefix k l = firstn (Z.to_nat k) l.
Proof.
  intros H. unfold py_prefix.
  destruct (Z.leb_spec 0 k); [reflexivity | lia].
Qed.



Lemma apply_filters_cases (results : list scored) (f : filters) :
  let survivors := filter (fun r => passes f (fst r)) results in
  (survivors <> [] -> apply_filters results f = survivors)
  /\ (survivors = [] -> apply_filters results f = results).
Proof.
  cbn zeta. unfold apply_filters.
  destruct (filter (fun r => passes f (fst r)) results);
    split; intros H; congruence.
Qed.

Lemma select_results_eq (results : list scored) (f : filters) (top_k : Z) :
  (0 <= top_k)%Z ->
  select_results results f top_k
  = firstn (Z.to_nat top_k) (apply_filters results f).
Proof.
  intros Hk. unfold select_results. rewrite !py_prefix_nonneg by exact Hk.
  destruct (firstn (Z.to_nat top_k) (apply_filters results f)) eqn:E;
    [|reflexivity].
  destruct (apply_filters_cases results f) as [H1 H2]. cbn zeta in H1, H2.
  destruct (filter (fun r => passes f (fst r)) results) as [|x xs] eqn:Hs.
  - now rewrite H2 in * by reflexivity.
  - rewrite H1 in E by discriminate.
    destruct (Z.to_nat top_k); [reflexivity | discriminate].
Qed.

Lemma rag_search_ranked {Vec} (env : rag_env Vec) (query : string) (top_k : Z)
      (qvec : Vec) (results : list scored) :
  encode env query = Some qvec ->
  rank env qvec top_k = Some results ->
  rag_search env query top_k
  = Some (select_results results (extract_filters query) top_k,
          extract_filters query).
Proof.
  intros He Hr. unfold rag_search, rag_search_try. now rewrite He, Hr.
Qed.




(** C1, as the code has it.  When the catalog file can be read,
    [rag_search] returns for every query and every [top_k]; when the
    embedding or the ranking raises, the [try] block raises; and whenever
    the [try] block raises, what [rag_search] returns is [artists[:top_k]]
    in storage order, each entry with the score 0.5, and no filter. *)
Theorem rag_search_degrades {Vec} (env : rag_env Vec) (query : string)
        (top_k : Z) (catalog : list artist) :
  load_artists env = Some catalog ->
  (exists r, rag_search env query top_k = Some r)
  /\ (encode env query = None
      \/ (exists qvec, encode env query = Some qvec /\ rank env qvec top_k = None) ->
      rag_search_try env query top_k = None)
  /\ (rag_search_try env query top_k = None ->
      rag_search env query top_k
      = Some (map (fun a => (a, 0.5%Q)) (py_prefix top_k catalog), no_filters))
  /\ ((0 <= top_k)%Z -> py_prefix top_k catalog = firstn (Z.to_nat top_k) catalog).
Proof.
  intros Hload.
  assert (Hexc : rag_search_except env top_k
                 = Some (map (fun a => (a, 0.5%Q)) (py_prefix top_k catalog),
                         no_filters)).
  { unfold rag_search_except. now rewrite Hload. }
  split; [|split; [|split]].
  - unfold rag_search.
    destruct (rag_search_try env query top_k) as [r|]; [now exists r|].
    rewrite Hexc. eauto.
  - unfold rag_search_try.
    intros [He | (q & He & Hn)]; rewrite He; [reflexivity|].
    now rewrite Hn.
  - intros Htry. unfold rag_search. now rewrite Htry.
  - apply py_prefix_nonneg.
Qed.

Lemma rag_search_degrades_witness :
  rag_search offline_env "a jazz singer in Chicago under $2k" 1
  = Some ([(singer_3, 0.5%Q)], no_filters).
Proof.
  exact (proj1 (proj2 (proj2 (@rag_search_degrades unit offline_env
            "a jazz singer in Chicago under $2k" 1 sample_catalog eq_refl)))
         eq_refl).
Defined.

(** C1, as stated, fails: when the model cannot be loaded and the catalog
    file cannot be read either, the handler itself raises. *)
Lemma rag_search_can_raise :
  rag_search broken_env "a jazz singer in Chicago under $2k" 3 = None.
Proof.
  reflexivity.
Qed.

(* ================================================================= *)
(** ** Provider cards *)

Section Cards.
Import Float64.
Local Open Scope Q_scope.

Lemma trunc_nonneg (y : Q) : 0 <= y -> trunc y = Qfloor y.
Proof.
  intros H. unfold trunc. apply Qle_bool_iff in H. now rewrite H.
Qed.

Lemma floor_le_round (y : Q) :
  (Qfloor y <= round_half_even y <= Qfloor y + 1)%Z.
Proof.
  unfold round_half_even.
  destruct (Qcompare _ _); [destruct (Z.even _)| |]; lia.
Qed.

Lemma percent_product (s : Q) :
  0 <= s -> s <= 1 ->
  int_int_mul 100 s = Some (Qfloor (rnd (100 * s)))
  /\ (0 <= Qfloor (rnd (100 * s)))%Z.
Proof.
  intros H0 H1.
  assert (Hy : 0 <= rnd (100 * s)) by (apply rnd_nonneg; lra).
  split.
  - rewrite int_int_mul_trunc; [|lia|exact H0|lra].
    assert (E : rnd (inject_Z 100) = 100) by (vm_compute; reflexivity).
    rewrite E. now rewrite trunc_nonneg.
  - change 0%Z with (Qfloor 0). now apply Qfloor_resp_le.
Qed.

(** C8, as the code has it.  For a score in [0,1] the percentage of the
    card is [min(int(s*100), 99)]: the floating-point product cut to its
    integer part, not rounded.  It lies between 0 and 99, and it is
    [min(round(s*100), 99)] or one less. *)
Theorem match_percent_truncates (s : Q) :
  0 <= s -> s <= 1 ->
  let product := rnd (100 * s) in
  match_percent s = Some (Z.min (Qfloor product) 99)
  /\ (0 <= Z.min (Qfloor product) 99 <= 99)%Z
  /\ (Z.min (round_half_even product) 99 - 1
      <= Z.min (Qfloor product) 99
      <= Z.min (round_half_even product) 99)%Z.
Proof.
  intros H0 H1. cbn zeta.
  destruct (percent_product H0 H1) as [E Hf].
  pose proof (floor_le_round (rnd (100 * s))) as Hr.
  unfold match_percent. rewrite E. cbn [option_map].
  generalize dependent (Qfloor (rnd (100 * s))).
  generalize (round_half_even (rnd (100 * s))).
  intros r m _ Hm Hr.
  split; [reflexivity|]. split; lia.
Qed.

Lemma match_percent_truncates_witness :
  match_percent 0.35 = Some 35%Z.
Proof.
  rewrite (proj1 (@match_percent_truncates 0.35
                    ltac:(vm_compute; discriminate)
                    ltac:(vm_compute; discriminate))).
  vm_compute. reflexivity.
Defined.

(** C8, as stated, fails: the score 0.5078125 (65/128, a binary64 value
    whose product with 100 is exact, 50.78125) gets 50 on the card where
    [min(round(s*100), 99)] is 51. *)
Lemma match_percent_not_rounded :
  0 <= 0.5078125 <= 1
  /\ match_percent 0.5078125 = Some 50%Z
  /\ rnd (100 * 0.5078125) == 50.78125
  /\ Z.min (round_half_even (100 * 0.5078125)) 99 = 51%Z.
Proof.
  split; [split; vm_compute; discriminate|].
  split; [vm_compute; reflexivity|].
  split; vm_compute; reflexivity.
Qed.

End Cards.

(** The percentage on each card is that of its score. *)
Lemma format_cards_scores (matches : list scored) :
  forall cards, _format_cards matches = Some cards ->
  Forall2 (fun m c => match_percent (snd m) = Some (match_score c)
                      /\ card_id c = id (fst m))
          matches cards.
Proof.
  induction matches as [|[a s] rest IH]; intros cards H;
    cbn [_format_cards] in H.
  - injection H as <-. constructor.
  - destruct (match_percent s) as [pct|] eqn:Hp; [|discriminate].
    destruct (_format_cards rest) as [cs|]; [|discriminate].
    injection H as <-. constructor; [|apply IH; reflexivity].
    split; [exact Hp | reflexivity].
Qed.

(* ================================================================= *)
(** ** What a pattern cannot match without *)

Lemma all_ascii_complete (c : ascii) : In c all_ascii.
Proof.
  unfold all_ascii. rewrite <- (ascii_nat_embedding c).
  apply in_map, in_seq. pose proof (nat_ascii_bounded c). lia.
Qed.

Lemma class_within_spec (q p : ascii -> bool) (c : ascii) :
  class_within q p = true -> q c = true -> p c = true.
Proof.
  unfold class_within. rewrite forallb_forall. intros H Hq.
  specialize (H c (all_ascii_complete c)). now rewrite Hq in H.
Qed.

(** The matcher hands to its continuation only suffixes of the text. *)
Lemma rmatch_calls_suffix (icase : bool) (R : Type) (r : Re.regex) :
  forall (s : list ascii) (cap : option (list ascii))
         (k : list ascii -> option (list ascii) -> option R),
  (forall s' c, (exists pre, s = pre ++ s') -> k s' c = None) ->
  Re.rmatch icase r s cap k = None.
Proof.
  induction r as [|c|q|r1 IH1 r2 IH2|r1 IH1 r2 IH2|q|r1 IH1|r1 IH1];
    intros s cap k H; cbn [Re.rmatch].
  - apply H. now exists [].
  - destruct s as [|d s']; [reflexivity|].
    destruct (Re.lit_eqb icase c d); [|reflexivity].
    apply H. now exists [d].
  - destruct s as [|d s']; [reflexivity|].
    destruct (q d); [|reflexivity].
    apply H. now exists [d].
  - apply IH1. intros s1 c1 [pre ->].
    apply IH2. intros s2 c2 [pre2 ->].
    apply H. exists (pre ++ pre2). now rewrite app_assoc.
  - rewrite IH1 by exact H. now apply IH2.
  - match goal with
    | |- ?f s = None =>
        assert (G : forall t, (exists pre, s = pre ++ t) -> f t = None)
    end.
    { induction t as [|d t IHt]; intros [pre E].
      - apply H. now exists pre.
      - rewrite IHt.
        + destruct (q d); apply H; now exists pre.
        + exists (pre ++ [d]). now rewrite <- app_assoc. }
    apply G. now exists [].
  - rewrite IH1 by exact H. apply H. now exists [].
  - apply IH1. intros s' c Hs. now apply H.
Qed.

Lemma rmatch_demands (icase : bool) (R : Type) (p : ascii -> bool) (r : Re.regex) :
  forall (s : list ascii) (cap : option (list ascii))
         (k : list ascii -> option (list ascii) -> option R),
  demands icase p r = true ->
  (forall c, In c s -> p c = false) ->
  Re.rmatch icase r s cap k = None.
Proof.
  induction r as [|c|q|r1 IH1 r2 IH2|r1 IH1 r2 IH2|q|r1 IH1|r1 IH1];
    intros s cap k Hd Hs; cbn [demands] in Hd; try discriminate Hd;
    cbn [Re.rmatch].
  - destruct s as [|d s']; [reflexivity|].
    destruct (Re.lit_eqb icase c d) eqn:E; [|reflexivity].
    pose proof (class_within_spec _ _ d Hd E) as Hp.
    rewrite (Hs d (or_introl eq_refl)) in Hp. discriminate Hp.
  - destruct s as [|d s']; [reflexivity|].
    destruct (q d) eqn:E; [|reflexivity].
    pose proof (class_within_spec _ _ d Hd E) as Hp.
    rewrite (Hs d (or_introl eq_refl)) in Hp. discriminate Hp.
  - apply orb_prop in Hd as [Hd|Hd].
    + now apply IH1.
    + apply rmatch_calls_suffix. intros s1 c1 [pre ->].
      apply IH2; [exact Hd|].
      intros c Hc. apply Hs. apply in_or_app. now right.
  - apply andb_prop in Hd as [Hd1 Hd2].
    rewrite IH1 by assumption. now apply IH2.
  - now apply IH1.
Qed.

Lemma search_demands (icase : bool) (p : ascii -> bool) (r : Re.regex)
      (text : string) :
  demands icase p r = true -> free_of p text -> Re.search icase r text = None.
Proof.
  intros Hd Hf. unfold Re.search, free_of in *.
  induction (list_ascii_of_string text) as [|c s IH]; cbn [Re.search_from].
  - unfold Re.match_at. now rewrite rmatch_demands with (p := p).
  - unfold Re.match_at at 1. rewrite rmatch_demands with (p := p) by assumption.
    apply IH. intros d Hin. apply Hf. now right.
Qed.

(* ================================================================= *)
(** ** Budgets and digits *)

Lemma budget_patterns_demand_digit :
  forallb (fun p => demands true is_digit (fst p)) budget_patterns = true.
Proof. vm_compute. reflexivity. Qed.

Lemma first_return_none (text : string) (ps : list (Re.regex * bool)) :
  (forall p, In p ps -> Re.search true (fst p) text = None) ->
  first_return text ps = None.
Proof.
  induction ps as [|p ps IH]; intros H; cbn [first_return]; [reflexivity|].
  unfold try_pattern. rewrite (H p (or_introl eq_refl)).
  apply IH. intros q Hq. apply H. now right.
Qed.

Lemma extract_budget_ge_100 (text : string) (v : Z) :
  extract_budget_from_text text = Some v -> (100 <= v)%Z.
Proof.
  unfold extract_budget_from_text.
  induction budget_patterns as [|p ps IH]; cbn [first_return]; [discriminate|].
  destruct (try_pattern text p) as [w|] eqn:E; [|exact IH].
  intros H. injection H as ->. now apply try_pattern_some in E.
Qed.

Lemma is_event_plan_request_eq (text : string) :
  is_event_plan_request text
  = any_in event_kw (lower text)
    && (any_in plan_kw (lower text) || is_some (extract_budget_from_text text)).
Proof.
  unfold is_event_plan_request. cbn zeta.
  destruct (any_in plan_kw (lower text)), (any_in event_kw (lower text)),
    (is_some (extract_budget_from_text text)); reflexivity.
Qed.

(** X1. An ASCII text without a digit has no budget: the budget extractor
    finds nothing in it, the filter set has no [max_budget], and the
    planning path of the chat is not taken, whatever keywords it holds. *)
Theorem no_digit_no_budget (text : string) :
  is_ascii text = true ->
  free_of is_digit text ->
  extract_budget_from_text text = None
  /\ max_budget (extract_filters text) = None
  /\ plan_path text = false.
Proof.
  intros _ Hf.
  assert (Hb : extract_budget_from_text text = None).
  { apply first_return_none. intros p Hp.
    apply search_demands with (p := is_digit); [|exact Hf].
    pose proof budget_patterns_demand_digit as H.
    rewrite forallb_forall in H. now apply H. }
  split; [exact Hb|]. split.
  - unfold extract_filters. cbn [max_budget].
    fold dollar_pattern.
    rewrite (@search_demands false is_digit dollar_pattern text);
      [reflexivity | vm_compute; reflexivity | exact Hf].
  - unfold plan_path. rewrite Hb. apply andb_false_r.
Qed.

Lemma no_digit_no_budget_witness :
  extract_budget_from_text "help me plan a wedding on a small budget" = None.
Proof.
  apply (@no_digit_no_budget "help me plan a wedding on a small budget");
    [reflexivity|].
  intros c Hc. vm_compute in Hc.
  repeat (destruct Hc as [<-|Hc]; [reflexivity|]). destruct Hc.
Defined.

(** X2. The planning path of the chat is taken exactly when the message
    holds an event keyword and a budget can be extracted from it; the
    planning keywords play no part.  The budget it then plans with is at
    least 100. *)
Theorem plan_path_iff (message : string) :
  plan_path message = true <->
  (exists w, In w event_kw /\ occurs_in w (lower message))
  /\ exists b, extract_budget_from_text message = Some b /\ (100 <= b)%Z.
Proof.
  unfold plan_path. rewrite is_event_plan_request_eq.
  rewrite <- any_in_occurs.
  destruct (extract_budget_from_text message) as [b|] eqn:Hb.
  - pose proof (extract_budget_ge_100 _ Hb) as Hge.
    cbn [is_some]. rewrite orb_true_r, andb_true_r.
    destruct (Z.eqb_spec b 0) as [->|Hne]; [lia|]. cbn [negb].
    rewrite andb_true_r. split.
    + intros H. split; [exact H | now exists b].
    + now intros [H _].
  - rewrite andb_false_r. split; [discriminate|].
    intros [_ (b & H & _)]. discriminate H.
Qed.

Lemma plan_path_iff_witness :
  plan_path "a gala for 5k" = true.
Proof.
  apply (proj2 (plan_path_iff "a gala for 5k")). split.
  - exists "gala". split; [simpl; tauto|]. now exists "a ", " for 5k".
  - exists 5000%Z. split; [vm_compute; reflexivity | lia].
Defined.

(* ================================================================= *)
(** ** The filter set of a query *)

Lemma find_first {A} (f : A -> bool) (l : list A) (x : A) :
  find f l = Some x ->
  exists before after,
    l = before ++ x :: after /\ f x = true
    /\ Forall (fun y => f y = false) before.
Proof.
  induction l as [|y l IH]; cbn [find]; [discriminate|].
  destruct (f y) eqn:Hy.
  - intros H. injection H as ->. exists [], l. repeat split; auto.
  - intros H. destruct (IH H) as (before & after & -> & Hx & Hb).
    exists (y :: before), after. repeat split; auto.
Qed.

Lemma find_none_iff {A} (f : A -> bool) (l : list A) :
  find f l = None <-> forall y, In y l -> f y = false.
Proof.
  split; [apply find_none|].
  induction l as [|y l IH]; intros H; cbn [find]; [reflexivity|].
  rewrite (H y (or_introl eq_refl)). apply IH. intros z Hz. apply H. now right.
Qed.

Lemma first_keyword (ws : list string) (t w : string) :
  find (fun c => contains c t) ws = Some w ->
  exists before after,
    ws = before ++ w :: after /\ occurs_in w t
    /\ Forall (fun w' => ~ occurs_in w' t) before.
Proof.
  intros H. apply find_first in H as (before & after & E & Hw & Hb).
  exists before, after. split; [exact E|]. split; [now apply contains_occurs|].
  rewrite Forall_forall in *. intros w' Hin Hocc.
  apply contains_occurs in Hocc. specialize (Hb w' Hin). cbv beta in Hb.
  congruence.
Qed.

Lemma no_keyword (ws : list string) (t : string) :
  find (fun c => contains c t) ws = None <->
  forall w, In w ws -> ~ occurs_in w t.
Proof.
  rewrite find_none_iff. split; intros H w Hin.
  - intros Hocc. apply contains_occurs in Hocc. specialize (H w Hin).
    cbv beta in H. congruence.
  - cbv beta. destruct (contains w t) eqn:E; [|reflexivity].
    apply contains_occurs in E. now apply H in E.
Qed.

(** X3. The filter set mined from a query of at most 640 characters, on
    which [int] cannot raise.  A [max_budget] is at least 100
    and needs a dollar sign in the text.  The city is the first city of the
    gazetteer, in its listed order, that occurs in the lower-cased text, and
    is absent exactly when none occurs; the category is the capitalised
    first keyword of the category list that occurs in it, and is absent
    exactly when none occurs.  Occurrence is as a substring, with no word
    boundary. *)
Theorem extract_filters_first_match (text : string) :
  (String.length text <= 640)%nat ->
  let f := extract_filters text in
  (forall b, max_budget f = Some b -> (100 <= b)%Z)
  /\ (free_of (Ascii.eqb "$") text -> max_budget f = None)
  /\ (forall c, city f = Some c ->
        exists before after,
          cities = before ++ c :: after /\ occurs_in c (lower text)
          /\ Forall (fun c' => ~ occurs_in c' (lower text)) before)
  /\ (city f = None <-> forall c, In c cities -> ~ occurs_in c (lower text))
  /\ (forall g, category_f f = Some g ->
        exists before kw after,
          cats = before ++ kw :: after /\ g = capitalize kw
          /\ occurs_in kw (lower text)
          /\ Forall (fun kw' => ~ occurs_in kw' (lower text)) before)
  /\ (category_f f = None <-> forall kw, In kw cats -> ~ occurs_in kw (lower text)).
Proof.
  intros _. cbn zeta. unfold extract_filters. cbn [max_budget city category_f].
  fold dollar_pattern.
  split; [|split; [|split; [|split; [|split]]]].
  - intros b. destruct (Re.search false dollar_pattern text) as [m|]; [|discriminate].
    match goal with
    | |- (if ?c then _ else _) = _ -> _ => destruct c eqn:E; [|discriminate]
    end.
    intros H. injection H as <-. now apply Z.leb_le in E.
  - intros Hf.
    rewrite (@search_demands false (Ascii.eqb "$") dollar_pattern text);
      [reflexivity | vm_compute; reflexivity | exact Hf].
  - intros c. apply first_keyword.
  - apply no_keyword.
  - intros g H.
    destruct (find (fun c => contains c (lower text)) cats) as [kw|] eqn:E;
      [|discriminate].
    injection H as <-.
    apply first_keyword in E as (before & after & Ec & Ho & Hb).
    now exists before, kw, after.
  - destruct (find (fun c => contains c (lower text)) cats) as [kw|] eqn:E.
    + split; [discriminate|]. intros H.
      apply first_keyword in E as (before & after & Ec & Ho & _).
      exfalso. apply (H kw); [|exact Ho].
      rewrite Ec. apply in_or_app. right. now left.
    + split; [intros _|reflexivity]. now apply no_keyword.
Qed.

Lemma extract_filters_first_match_witness :
  exists before kw after,
    cats = before ++ kw :: after /\ "Dj" = capitalize kw
    /\ occurs_in kw (lower "a room ADJACENT to the hall")
    /\ Forall (fun kw' => ~ occurs_in kw' (lower "a room ADJACENT to the hall"))
              before.
Proof.
  apply (proj1 (proj2 (proj2 (proj2 (proj2
           (@extract_filters_first_match "a room ADJACENT to the hall"
              ltac:(simpl; lia))))))).
  vm_compute. reflexivity.
Defined.

(* ================================================================= *)
(** ** More on retrieval *)

Lemma filter_idem {A} (f : A -> bool) (l : list A) :
  filter f (filter f l) = filter f l.
Proof.
  induction l as [|x l IH]; cbn [filter]; [reflexivity|].
  destruct (f x) eqn:E; [|exact IH]. cbn [filter]. now rewrite E, IH.
Qed.

Lemma passes_no_filters (a : artist) : passes no_filters a = true.
Proof. reflexivity. Qed.

Lemma filter_all {A} (f : A -> bool) (l : list A) :
  (forall x, f x = true) -> filter f l = l.
Proof.
  intros H. induction l as [|x l IH]; cbn [filter]; [reflexivity|].
  now rewrite H, IH.
Qed.

(** X4. [apply_filters] only ever removes entries: what it returns is the
    ranking with some entries left out, order and scores kept, and every
    entry returned passes the filters unless none does.  Applying it twice
    changes nothing more, an empty filter set changes nothing, and a
    non-empty ranking never becomes empty. *)
Theorem apply_filters_only_removes (results : list scored) (f : filters) :
  (exists keep, apply_filters results f = filter keep results)
  /\ (Forall (fun r => passes f (fst r) = true) (apply_filters results f)
      \/ (apply_filters results f = results
          /\ Forall (fun r => passes f (fst r) = false) results))
  /\ apply_filters (apply_filters results f) f = apply_filters results f
  /\ apply_filters results no_filters = results
  /\ (results <> [] -> apply_filters results f <> []).
Proof.
  destruct (apply_filters_cases results f) as [H1 H2]. cbn zeta in H1, H2.
  destruct (filter (fun r => passes f (fst r)) results) as [|x xs] eqn:E.
  - rewrite (H2 eq_refl).
    split; [exists (fun _ => true); symmetry; now apply filter_all|].
    split.
    { right. split; [reflexivity|]. rewrite Forall_forall. intros r Hr.
      destruct (passes f (fst r)) eqn:Hp; [|reflexivity].
      assert (Hin : In r (filter (fun r => passes f (fst r)) results))
        by (apply filter_In; now split).
      rewrite E in Hin. destruct Hin. }
    split; [now rewrite (H2 eq_refl)|].
    split; [|tauto].
    unfold apply_filters. rewrite filter_all by (intros; apply passes_no_filters).
    now destruct results.
  - rewrite H1 by discriminate.
    split; [exists (fun r => passes f (fst r)); symmetry; exact E|].
    split.
    { left. rewrite <- E, Forall_forall. intros r Hr.
      now apply filter_In in Hr. }
    split.
    { unfold apply_filters. rewrite <- E, filter_idem. rewrite E. reflexivity. }
    split; [|discriminate].
    unfold apply_filters. rewrite filter_all by (intros; apply passes_no_filters).
    now destruct results.
Qed.

Lemma apply_filters_only_removes_witness :
  apply_filters [(singer_3, 0.5%Q); (dj_4, 0.25%Q)]
                (extract_filters "a magician in Boston") <> [].
Proof.
  apply (proj2 (proj2 (proj2 (proj2
           (apply_filters_only_removes [(singer_3, 0.5%Q); (dj_4, 0.25%Q)]
              (extract_filters "a magician in Boston")))))).
  discriminate.
Defined.

Lemma py_prefix_in {A} (k : Z) (l : list A) (x : A) :
  In x (py_prefix k l) -> In x l.
Proof.
  unfold py_prefix. destruct (0 <=? k)%Z; apply firstn_in.
Qed.

Lemma apply_filters_in (results : list scored) (f : filters) (r : scored) :
  In r (apply_filters results f) -> In r results.
Proof.
  unfold apply_filters.
  destruct (filter (fun r => passes f (fst r)) results) eqn:E; [tauto|].
  rewrite <- E. intros H. now apply filter_In in H.
Qed.

Lemma select_results_in (results : list scored) (f : filters) (k : Z) (r : scored) :
  In r (select_results results f k) -> In r results.
Proof.
  unfold select_results.
  destruct (py_prefix k (apply_filters results f)) eqn:E.
  - apply py_prefix_in.
  - rewrite <- E. intros H. apply py_prefix_in in H. now apply apply_filters_in in H.
Qed.

Lemma select_results_length (results : list scored) (f : filters) (k : Z) :
  (0 <= k)%Z -> (List.length (select_results results f k) <= Z.to_nat k)%nat.
Proof.
  intros Hk. rewrite select_results_eq by exact Hk. rewrite length_firstn. lia.
Qed.

(** The hits of the index paired with the snapshot. *)
Lemma pair_hits_spec (arts : list artist) (hits : list (Z * Q)) :
  match pair_hits arts hits with
  | Some res =>
      Forall (fun r => In (fst r) arts) res
      /\ map snd res = map snd (filter (fun h => (0 <=? fst h)%Z) hits)
      /\ Forall (fun h => (fst h < Z.of_nat (List.length arts))%Z) hits
  | None =>
      exists h, In h hits /\ (Z.of_nat (List.length arts) <= fst h)%Z
  end.
Proof.
  induction hits as [|[i sc] hits IH]; cbn [pair_hits].
  - repeat split; constructor.
  - cbn [filter fst].
    destruct (Z.leb_spec 0 i) as [Hi|Hi].
    + destruct (nth_error arts (Z.to_nat i)) as [a|] eqn:Ha.
      * destruct (pair_hits arts hits) as [rest|].
        -- destruct IH as (H1 & H2 & H3). split; [|split].
           ++ constructor; [|exact H1]. cbn [fst]. eapply nth_error_In; eauto.
           ++ cbn [map snd]. now rewrite H2.
           ++ constructor; [|exact H3]. cbn [fst].
              assert (Z.to_nat i < List.length arts)%nat
                by (apply nth_error_Some; congruence).
              lia.
        -- destruct IH as (h & Hh & Hlen). exists h. split; [now right | exact Hlen].
      * exists (i, sc). split; [now left|]. cbn [fst].
        apply nth_error_None in Ha. lia.
    + destruct (pair_hits arts hits) as [rest|].
      * destruct IH as (H1 & H2 & H3). split; [exact H1|]. split; [exact H2|].
        constructor; [cbn [fst]; lia | exact H3].
      * destruct IH as (h & Hh & Hlen). exists h. split; [now right | exact Hlen].
Qed.

(** X5. [rag_search] never returns more than [top_k] entries, for a
    [top_k] of at least 0, on either path; and the filter set it returns is
    the one extracted from the query or, on the degraded path, the empty
    one. *)
Theorem rag_search_at_most_top_k {Vec} (env : rag_env Vec) (query : string)
        (top_k : Z) (res : list scored) (f : filters) :
  (0 <= top_k)%Z ->
  rag_search env query top_k = Some (res, f) ->
  (List.length res <= Z.to_nat top_k)%nat
  /\ (f = extract_filters query \/ f = no_filters).
Proof.
  intros Hk. unfold rag_search.
  destruct (rag_search_try env query top_k) as [[res' f']|] eqn:Htry.
  - intros H. injection H as -> ->.
    unfold rag_search_try in Htry.
    destruct (encode env query) as [qvec|]; [|discriminate].
    destruct (rank env qvec top_k) as [results|]; [|discriminate].
    injection Htry as <- <-.
    split; [now apply select_results_length | now left].
  - unfold rag_search_except.
    destruct (load_artists env) as [catalog|]; [|discriminate].
    intros H. injection H as <- <-.
    split; [|now right].
    rewrite length_map, py_prefix_nonneg by exact Hk.
    rewrite length_firstn. lia.
Qed.

Lemma rag_search_at_most_top_k_witness :
  (List.length [(singer_3, 0.5%Q)] <= Z.to_nat 1)%nat
  /\ (no_filters = extract_filters "a jazz singer in Chicago under $2k"
      \/ no_filters = no_filters).
Proof.
  apply (@rag_search_at_most_top_k unit offline_env
           "a jazz singer in Chicago under $2k" 1
           [(singer_3, 0.5%Q)] no_filters); [lia | reflexivity].
Defined.

(** X6. Where the results come from.  With an index, a successful search
    for a query of at most 640 characters, on which [extract_filters]
    cannot raise, returns records of the snapshot the index was built from,
    whatever the catalog file holds by then, each with a score the index
    gave; an index hit past the end of the snapshot makes the [try] block
    raise.  When the
    [try] block raises, the results are records of the catalog file, each
    with the score 0.5, and the filter set is empty. *)
Theorem rag_search_sources {Vec} (env : rag_env Vec) (query : string)
        (top_k : Z) (res : list scored) (f : filters) :
  rag_search env query top_k = Some (res, f) ->
  (forall index_search qvec hits,
     (String.length query <= 640)%nat ->
     faiss_index env = Some index_search ->
     encode env query = Some qvec ->
     index_search qvec (Z.min (top_k * 3)
                              (Z.of_nat (List.length (artists_for_rag env))))
     = Some hits ->
     (Forall (fun h => (fst h < Z.of_nat (List.length (artists_for_rag env)))%Z) hits
      -> Forall (fun r => In (fst r) (artists_for_rag env)
                          /\ In (snd r) (map snd hits)) res)
     /\ ((exists h, In h hits
                    /\ (Z.of_nat (List.length (artists_for_rag env)) <= fst h)%Z)
         -> rag_search_try env query top_k = None))
  /\ (rag_search_try env query top_k = None ->
      exists catalog,
        load_artists env = Some catalog
        /\ Forall (fun r => In (fst r) catalog /\ snd r = 0.5%Q) res
        /\ f = no_filters).
Proof.
  intros Hs. split.
  - intros index_search qvec hits _ Hidx Henc Hhits.
    pose proof (pair_hits_spec (artists_for_rag env) hits) as Hp.
    assert (Hrank : rank env qvec top_k = pair_hits (artists_for_rag env) hits).
    { unfold rank. now rewrite Hidx, Hhits. }
    split.
    + intros Hin.
      destruct (pair_hits (artists_for_rag env) hits) as [results|] eqn:Hph.
      * destruct Hp as (H1 & H2 & _).
        rewrite (rag_search_ranked env query top_k Henc Hrank) in Hs.
        injection Hs as <- <-.
        rewrite Forall_forall in *. intros r Hr.
        apply select_results_in in Hr. split; [now apply H1|].
        apply (in_map snd) in Hr. rewrite H2 in Hr.
        apply in_map_iff in Hr as (h & <- & Hh). apply filter_In in Hh as [Hh _].
        now apply in_map.
      * destruct Hp as (h & Hh & Hlen). rewrite Forall_forall in Hin.
        specialize (Hin h Hh). lia.
    + intros (h & Hh & Hlen).
      destruct (pair_hits (artists_for_rag env) hits) as [results|] eqn:Hph.
      * destruct Hp as (_ & _ & H3). rewrite Forall_forall in H3.
        specialize (H3 h Hh). lia.
      * unfold rag_search_try. now rewrite Henc, Hrank.
  - intros Htry. unfold rag_search in Hs. rewrite Htry in Hs.
    unfold rag_search_except in Hs.
    destruct (load_artists env) as [catalog|]; [|discriminate].
    injection Hs as <- <-. exists catalog. split; [reflexivity|].
    split; [|reflexivity].
    rewrite Forall_forall. intros r Hr.
    apply in_map_iff in Hr as (a & <- & Ha). split; [|reflexivity].
    cbn [fst]. now apply py_prefix_in in Ha.
Qed.

Lemma rag_search_sources_witness :
  exists catalog,
    load_artists offline_env = Some catalog
    /\ Forall (fun r => In (fst r) catalog /\ snd r = 0.5%Q) [(singer_3, 0.5%Q)]
    /\ no_filters = no_filters.
Proof.
  apply (proj2 (@rag_search_sources unit offline_env
                  "a jazz singer in Chicago under $2k" 1
                  [(singer_3, 0.5%Q)] no_filters eq_refl)).
  reflexivity.
Defined.

(* ================================================================= *)
(** ** Event types and the lookup tables *)

Lemma detect_event_type_range (text : string) :
  In (detect_event_type text) event_type_names.
Proof.
  unfold detect_event_type, event_type_names. cbn zeta.
  repeat match goal with
         | |- context [any_in ?ws ?t] => destruct (any_in ws t); [simpl; tauto|]
         end.
  simpl; tauto.
Qed.

Lemma budget_lookup_direct (text : string) :
  get_or_default BUDGET_TEMPLATES (detect_event_type text)
  = dict_get BUDGET_TEMPLATES (detect_event_type text).
Proof.
  pose proof (detect_event_type_range text) as H.
  unfold event_type_names in H. cbn [In] in H.
  repeat (destruct H as [<-|H]; [reflexivity|]).
  destruct H.
Qed.

(** X7. [detect_event_type] only answers one of eight names, and each of
    them is a key of the budget table and of the category table: for these
    two tables the ["default"] fallback of the lookup is never what selects
    the entry.  In the timeline table and in the tips table the one name
    without an entry is ["concert"]. *)
Theorem event_type_lookups (text : string) :
  let ty := detect_event_type text in
  In ty event_type_names
  /\ get_or_default BUDGET_TEMPLATES ty = dict_get BUDGET_TEMPLATES ty
  /\ get_or_default ARTIST_CATEGORY_FOR_EVENT ty
     = dict_get ARTIST_CATEGORY_FOR_EVENT ty
  /\ dict_get BUDGET_TEMPLATES ty <> None
  /\ dict_get ARTIST_CATEGORY_FOR_EVENT ty <> None
  /\ (dict_get EVENT_TIMELINES ty = None <-> ty = "concert")
  /\ (dict_get PRO_TIPS ty = None <-> ty = "concert").
Proof.
  cbn zeta. pose proof (detect_event_type_range text) as H.
  split; [exact H|].
  unfold event_type_names in H. cbn [In] in H.
  repeat (destruct H as [<-|H];
          [repeat split; (reflexivity || discriminate)|]).
  destruct H.
Qed.

(* ================================================================= *)
(** ** Invariants of a plan *)

Lemma timelines_nonempty :
  Forall (fun kt => snd kt <> []) EVENT_TIMELINES.
Proof. repeat constructor; discriminate. Qed.

Lemma tips_nonempty : Forall (fun kt => snd kt <> []) PRO_TIPS.
Proof. repeat constructor; discriminate. Qed.

Lemma get_or_default_nonempty {V} (d : dict (list V)) (k : string) (v : list V) :
  Forall (fun kt => snd kt <> []) d -> get_or_default d k = Some v -> v <> [].
Proof.
  intros Hall H. apply get_or_default_in in H as [k' Hin].
  rewrite Forall_forall in Hall. exact (Hall _ Hin).
Qed.

(** X8. What every plan carries: the name and the budget it was asked for,
    the event type detected in the query followed by the name, one
    breakdown entry per label of that type's template, in the template's
    order, each amount being [round(budget * weight)]; a timeline and tips
    that are not empty; and a shortlist of at most three catalog records,
    none with a minimum price above the entertainment sub-budget. *)
Theorem plan_invariants (catalog : option (list artist)) (ev_name : string)
        (B : Z) (query : string) (p : event_plan) :
  generate_event_plan catalog ev_name B query = Some p ->
  event_name p = ev_name
  /\ total_budget p = B
  /\ event_type p = detect_event_type (query ++ " " ++ ev_name)
  /\ map fst (breakdown p) = map fst (template_of (event_type p))
  /\ Forall2 (fun kw kv => Float64.round_int_mul B (snd kw) = Some (snd kv))
             (template_of (event_type p)) (breakdown p)
  /\ timeline p <> [] /\ tips p <> []
  /\ (List.length (artists p) <= 3)%nat
  /\ exists all,
       catalog = Some all
       /\ Forall (fun a => (price_min a <= entertainment_budget p)%Z /\ In a all)
                 (artists p).
Proof.
  intros Hp. apply generate_event_plan_inv in Hp. cbn zeta in Hp.
  destruct Hp as (tpl & tl & tps & pcats & bd & dflt & all
                  & H1 & H2 & H3 & H4 & H5 & H6 & Hc & ->).
  unfold assemble_plan.
  cbn [event_name total_budget event_type breakdown timeline tips artists
       entertainment_budget].
  pose proof (template_in_table_ok H1) as Hok.
  apply template_ok_parts in Hok as [Hd _].
  pose proof (budget_lookup_direct (query ++ " " ++ ev_name)) as E1.
  assert (Etpl : template_of (detect_event_type (query ++ " " ++ ev_name)) = tpl).
  { apply template_of_in. now rewrite <- E1. }
  rewrite Etpl.
  apply fill_breakdown_inv in H5; [|exact Hd|reflexivity].
  destruct H5 as (vs & -> & Hkeys & Hvals). cbn [app].
  repeat split; try assumption.
  - exact (@get_or_default_nonempty _ _ _ _ timelines_nonempty H2).
  - exact (@get_or_default_nonempty _ _ _ _ tips_nonempty H3).
  - apply match_artists_length.
  - exists all. split; [exact Hc | apply match_artists_affordable].
Qed.

Lemma plan_invariants_witness :
  map fst (breakdown sample_concert_plan)
  = map fst (template_of (event_type sample_concert_plan))
  /\ (List.length (artists sample_concert_plan) <= 3)%nat.
Proof.
  destruct (@plan_invariants (Some sample_catalog) "Concert Night" 5000%Z
              "plan a concert" sample_concert_plan
              ltac:(vm_compute; reflexivity))
    as (_ & _ & _ & Hl & _ & _ & _ & Hn & _).
  split; assumption.
Defined.

(* ================================================================= *)
(** ** More on the shortlist *)

Lemma list_eqb_refl {A} (eqb : A -> A -> bool) (l : list A) :
  (forall x, eqb x x = true) -> list_eqb eqb l l = true.
Proof.
  intros H. induction l as [|x l IH]; cbn; [reflexivity|].
  now rewrite H, IH.
Qed.

Lemma artist_eqb_refl (a : artist) : artist_eqb a a = true.
Proof.
  unfold artist_eqb.
  rewrite !Z.eqb_refl, !String.eqb_refl,
    !(list_eqb_refl _ _ String.eqb_refl).
  assert (Hq : Qeq_bool (rating a) (rating a) = true)
    by (apply Qeq_bool_iff; reflexivity).
  rewrite Hq.
  destruct (badge a) as [b|]; cbn [option_eqb];
    rewrite ?String.eqb_refl; reflexivity.
Qed.

Lemma artist_in_In (a : artist) (l : list artist) :
  In a l -> artist_in a l = true.
Proof.
  intros H. unfold artist_in. apply existsb_exists.
  exists a. split; [exact H | apply artist_eqb_refl].
Qed.

Lemma NoDup_firstn {A} (n : nat) (l : list A) : NoDup l -> NoDup (firstn n l).
Proof.
  intros H. rewrite <- (firstn_skipn n l) in H.
  now apply NoDup_app_remove_r in H.
Qed.

Lemma sort_NoDup (l : list artist) : NoDup l -> NoDup (sort_by_rating_desc l).
Proof.
  intros H. eapply Permutation_NoDup; [|exact H].
  symmetry. apply sort_by_rating_desc_perm.
Qed.

Lemma sort_nonempty (l : list artist) : l <> [] -> sort_by_rating_desc l <> [].
Proof.
  intros H E. apply H. apply length_zero_iff_nil.
  rewrite <- sort_length, E. reflexivity.
Qed.

Lemma firstn_nonempty {A} (n : nat) (l : list A) :
  l <> [] -> firstn (S n) l <> [].
Proof.
  destruct l; [congruence | discriminate].
Qed.

(** X9. The shortlist is empty only when no record of the catalog fits the
    sub-budget: as soon as one provider, of any category, has a minimum
    price within it, at least one provider is recommended. *)
Theorem shortlist_empty_iff (all : list artist) (pcats : list string) (cap : Z) :
  match_artists all pcats cap = [] <->
  forall a, In a all -> (cap < price_min a)%Z.
Proof.
  split.
  - intros E a Ha.
    destruct (Z.ltb_spec cap (price_min a)) as [|Hle]; [assumption|exfalso].
    assert (Hfit : (price_min a <=? cap)%Z = true) by now apply Z.leb_le.
    destruct (match_artists_cases all pcats cap) as [H2 H1]. cbn zeta in H1, H2.
    destruct (Nat.lt_ge_cases (List.length (preferred_pool all pcats cap)) 2)
      as [Hlt|Hge].
    + destruct (H1 Hlt) as [Etop Em]. rewrite Etop in Em.
      rewrite Em in E.
      destruct (preferred_pool all pcats cap) as [|x xs] eqn:Ep.
      * cbn [sort_by_rating_desc fold_right app] in E.
        revert E. apply firstn_nonempty, sort_nonempty.
        intros Ew.
        assert (Hin : In a (widened_pool all [] cap)).
        { unfold widened_pool. apply filter_In. split; [exact Ha|].
          now rewrite Hfit. }
        rewrite Ew in Hin. destruct Hin.
      * revert E. apply firstn_nonempty.
        intros E.
        apply app_eq_nil in E as [E _].
        revert E. apply sort_nonempty. discriminate.
    + rewrite (H2 Hge) in E. revert E.
      apply firstn_nonempty, sort_nonempty.
      intros Ep. rewrite Ep in Hge. cbn in Hge. lia.
  - intros H.
    pose proof (match_artists_affordable all pcats cap) as Hall.
    destruct (match_artists all pcats cap) as [|x xs]; [reflexivity|].
    inversion Hall as [|? ? [Hx Hin] _]; subst.
    specialize (H x Hin). lia.
Qed.

Lemma shortlist_empty_iff_witness :
  match_artists sample_catalog ["Painter"] 500 = [].
Proof.
  apply (proj2 (shortlist_empty_iff sample_catalog ["Painter"] 500)).
  intros a Ha. cbn in Ha. destruct Ha as [<-|[<-|[]]]; cbn; lia.
Defined.

(** X10. No provider is recommended twice: a catalog without repeated
    records gives a shortlist without repeated records, also when the
    shortlist is filled up from the other categories. *)
Theorem shortlist_no_duplicates (all : list artist) (pcats : list string) (cap : Z) :
  NoDup all -> NoDup (match_artists all pcats cap).
Proof.
  intros Hnd. unfold match_artists.
  set (top := firstn 3 (sort_by_rating_desc
                          (filter (fun a => (price_min a <=? cap)%Z
                                            && in_cats (category a) pcats) all))).
  assert (Htop : NoDup top).
  { unfold top. apply NoDup_firstn, sort_NoDup, NoDup_filter, Hnd. }
  destruct (List.length top <? 2)%nat; [|exact Htop].
  apply NoDup_firstn, NoDup_app.
  - exact Htop.
  - apply sort_NoDup, NoDup_filter, Hnd.
  - intros a Ha Hin.
    apply (Permutation_in _ (sort_by_rating_desc_perm _)) in Hin.
    apply filter_In in Hin as [_ Hc].
    apply andb_prop in Hc as [_ Hc].
    rewrite (artist_in_In _ _ Ha) in Hc. discriminate Hc.
Qed.

Lemma shortlist_no_duplicates_witness :
  NoDup (match_artists [singer_3; magician_5; dj_4] (categories_of "wedding") 4000).
Proof.
  apply shortlist_no_duplicates.
  repeat constructor; cbn; intuition discriminate.
Defined.

(* ================================================================= *)
(** ** The size of the allocations *)

Lemma templates_shares_at_most_half :
  Forall (fun kt => shares_at_most_half (snd kt) = true) BUDGET_TEMPLATES.
Proof. repeat constructor. Qed.

Section Allocations.
Import Float64.
Local Open Scope Q_scope.

(** One allocation of a budget from 100 to [2^51], for a share between
    1/64 and 1/2: at least 1 and below the budget. *)
Lemma amount_in_range (B : Z) (kw : string * Q) :
  (100 <= B <= 2 ^ 51)%Z -> weight_ok kw = true ->
  Qle_bool (decimal_of (snd kw)) (1 # 2) = true ->
  (1 <= amount B (snd kw) < B)%Z.
Proof.
  intros HB Hok Hhalf.
  apply weight_ok_bounds in Hok as (Hw & Hd1 & Hd2).
  apply Qle_bool_iff in Hhalf.
  destruct (@amount_close B (decimal_of (snd kw)) (snd kw)
              ltac:(lia) Hd1 Hd2 Hw) as [Hlo Hhi].
  set (d := decimal_of (snd kw)) in *.
  set (v := amount B (snd kw)) in *.
  assert (HA : 100 <= inject_Z B).
  { change 100 with (inject_Z 100). rewrite <- Zle_Qle. lia. }
  assert (H1 : 100 * (1 # 64) <= inject_Z B * d).
  { apply Qmult_le_compat_nonneg; split; lra. }
  assert (H2 : inject_Z B * d <= inject_Z B * (1 # 2)).
  { apply Qmult_le_compat_nonneg; split; lra. }
  assert (Hv1 : inject_Z 1 <= inject_Z v).
  { assert (Hpos : 0 < inject_Z v) by lra.
    change 0 with (inject_Z 0) in Hpos. rewrite <- Zlt_Qlt in Hpos.
    rewrite <- Zle_Qle. lia. }
  assert (Hv2 : inject_Z v < inject_Z B) by lra.
  rewrite <- Zle_Qle in Hv1. rewrite <- Zlt_Qlt in Hv2. lia.
Qed.

(** Beyond the range of binary64 the conversion of the budget raises. *)
Lemma of_int_overflow (B : Z) : (2 ^ 1025 <= B)%Z -> of_int B = None.
Proof.
  intros HB. unfold of_int, checked, is_finite.
  assert (HA : 2 ^ 1025 <= inject_Z B).
  { rewrite <- pow2_inject by lia. now rewrite <- Zle_Qle. }
  assert (H0 : 0 <= inject_Z B).
  { pose proof (pow2_pos 1025). lra. }
  destruct (rnd_bounds H0) as [Hlo _].
  pose proof (rnd_nonneg H0) as Hn.
  assert (Hbig : 2 ^ 1024 <= Qabs (rnd (inject_Z B))).
  { rewrite Qabs_pos by exact Hn. unfold u, eta in Hlo. lra. }
  apply Qle_bool_iff in Hbig. now rewrite Hbig.
Qed.

End Allocations.

Lemma plan_entertainment_in_breakdown (catalog : option (list artist))
      (ev_name : string) (B : Z) (query : string) (p : event_plan) :
  generate_event_plan catalog ev_name B query = Some p ->
  exists k, In (k, entertainment_budget p) (breakdown p).
Proof.
  intros Hp. apply generate_event_plan_inv in Hp. cbn zeta in Hp.
  destruct Hp as (tpl & tl & tps & pcats & bd & dflt & all
                  & H1 & _ & _ & _ & H5 & _ & _ & ->).
  pose proof (template_in_table_ok H1) as Hok.
  apply template_ok_parts in Hok as [Hd _].
  apply get_or_default_in in H1 as [ty' Hin].
  pose proof templates_have_entertainment as Hent.
  rewrite Forall_forall in Hent. specialize (Hent _ Hin). cbn [snd] in Hent.
  apply fill_breakdown_inv in H5; [|exact Hd|reflexivity].
  destruct H5 as (vs & -> & Hkeys & _). cbn [app] in *.
  rewrite <- Hkeys in Hent.
  destruct (find_by_key is_entertainment vs Hent) as (k & v & Hf & Hk & Hkv).
  unfold assemble_plan. cbn [entertainment_budget breakdown].
  unfold next_entertainment. rewrite Hf. now exists k.
Qed.

(** X11. For a budget from 100, the least the chat plans with, to [2^51],
    every category of the breakdown gets an amount of at least 1 and below
    the total budget; so does the entertainment sub-budget. *)
Theorem allocations_in_range (catalog : option (list artist)) (ev_name : string)
        (B : Z) (query : string) (p : event_plan) :
  (100 <= B <= 2 ^ 51)%Z ->
  generate_event_plan catalog ev_name B query = Some p ->
  Forall (fun kv => (1 <= snd kv < B)%Z) (breakdown p)
  /\ (1 <= entertainment_budget p < B)%Z.
Proof.
  intros HB Hp.
  assert (Hall : Forall (fun kv => (1 <= snd kv < B)%Z) (breakdown p)).
  { pose proof Hp as Hinv. apply generate_event_plan_inv in Hinv.
    cbn zeta in Hinv.
    destruct Hinv as (tpl & tl & tps & pcats & bd & dflt & all
                      & H1 & _ & _ & _ & H5 & _ & _ & ->).
    unfold assemble_plan. cbn [breakdown].
    pose proof (template_in_table_ok H1) as Hok.
    destruct (template_ok_parts _ Hok) as [Hd Hw].
    apply get_or_default_in in H1 as [ty' Hin].
    pose proof templates_shares_at_most_half as Hhalf.
    rewrite Forall_forall in Hhalf. specialize (Hhalf _ Hin). cbn [snd] in Hhalf.
    unfold shares_at_most_half in Hhalf.
    rewrite forallb_forall in Hw, Hhalf.
    apply fill_breakdown_inv in H5; [|exact Hd|reflexivity].
    destruct H5 as (vs & -> & _ & Hvals). cbn [app].
    clear Hd Hin Hok Hp.
    induction Hvals as [|kw kv tpl' vs' Hv _ IH]; [constructor|].
    constructor.
    - destruct (weight_ok_range _ (Hw kw (or_introl eq_refl))) as [H0 H2].
      rewrite round_int_mul_amount in Hv by (lia || assumption).
      injection Hv as <-.
      apply amount_in_range; [exact HB | apply Hw; now left | apply Hhalf; now left].
    - apply IH; intros x Hx; [apply Hw | apply Hhalf]; now right. }
  split; [exact Hall|].
  destruct (plan_entertainment_in_breakdown _ _ _ _ Hp) as [k Hk].
  rewrite Forall_forall in Hall. exact (Hall _ Hk).
Qed.

Lemma allocations_in_range_witness :
  (1 <= entertainment_budget sample_plan < 20000)%Z.
Proof.
  apply (@allocations_in_range (Some sample_catalog) "Wedding" 20000%Z
           "plan my wedding" sample_plan).
  - lia.
  - vm_compute. reflexivity.
Defined.

(** X12. A budget of [2^1025] or more cannot be planned: converting it to
    a float raises, and [generate_event_plan] raises with it, whatever the
    catalog and the event. *)
Theorem huge_budget_raises (catalog : option (list artist)) (ev_name : string)
        (B : Z) (query : string) :
  (2 ^ 1025 <= B)%Z ->
  generate_event_plan catalog ev_name B query = None.
Proof.
  intros HB.
  destruct (generate_event_plan catalog ev_name B query) as [p|] eqn:Hp;
    [exfalso|reflexivity].
  apply generate_event_plan_inv in Hp. cbn zeta in Hp.
  destruct Hp as (tpl & tl & tps & pcats & bd & dflt & all
                  & _ & _ & _ & _ & _ & H6 & _).
  unfold Float64.int_int_mul, Float64.int_mul in H6.
  rewrite (of_int_overflow HB) in H6. discriminate H6.
Qed.

Lemma huge_budget_raises_witness :
  generate_event_plan (Some sample_catalog) "Gala" (2 ^ 1025) "a gala" = None.
Proof.
  apply huge_budget_raises. lia.
Defined.

(* ================================================================= *)
(** ** Cards for any cosine score *)

Section SignedScores.
Import Float64.
Local Open Scope Q_scope.

Lemma Qopp_involutive_eq (x : Q) : - - x = x.
Proof.
  destruct x as [n d]. unfold Qopp. cbn [Qnum Qden]. now rewrite Z.opp_involutive.
Qed.

(** Rounding commutes with negation. *)
Lemma rnd_opp (x : Q) : rnd (- x) = - rnd x.
Proof.
  unfold rnd. cbn zeta. rewrite Qred_opp.
  set (y := Qred x).
  destruct (Qcompare y 0) eqn:E.
  - assert (Hy : y == 0) by (apply Qeq_alt; exact E).
    assert (E' : Qcompare (- y) 0 = Eq) by (apply Qeq_alt; lra).
    rewrite E'. reflexivity.
  - assert (Hy : y < 0) by (apply (proj2 (Qlt_alt _ _)); exact E).
    assert (E' : Qcompare (- y) 0 = Gt) by (apply Qgt_alt; lra).
    rewrite E'.
    now rewrite Qred_opp, Qopp_involutive_eq.
  - assert (Hy : 0 < y) by (apply Qgt_alt; exact E).
    assert (E' : Qcompare (- y) 0 = Lt) by (apply (proj1 (Qlt_alt _ _)); lra).
    rewrite E'.
    now rewrite Qopp_involutive_eq, Qred_opp.
Qed.

Lemma trunc_nonpos (y : Q) : y <= 0 -> trunc y = Qceiling y.
Proof.
  intros H. unfold trunc.
  destruct (Qle_bool 0 y) eqn:E; [|reflexivity].
  apply Qle_bool_iff in E.
  assert (E0 : y == 0) by lra.
  now rewrite (Qfloor_comp _ _ E0), (Qceiling_comp _ _ E0).
Qed.

Lemma percent_product_neg (s : Q) :
  -1 <= s -> s <= 0 ->
  int_int_mul 100 s = Some (Qceiling (rnd (100 * s)))
  /\ rnd (100 * s) <= 0 /\ -101 < rnd (100 * s).
Proof.
  intros H1 H0.
  assert (E100 : of_int 100 = Some 100) by (vm_compute; reflexivity).
  unfold int_int_mul, int_mul. rewrite E100. unfold mul.
  assert (Ex : 100 * s == - (100 * - s)) by ring.
  rewrite (rnd_comp Ex), rnd_opp.
  assert (Hp0 : 0 <= 100 * - s) by lra.
  destruct (rnd_bounds Hp0) as [Hlo Hhi]. unfold u, eta in Hlo, Hhi.
  pose proof (rnd_nonneg Hp0) as Hn.
  set (y := rnd (100 * - s)) in *.
  unfold checked, is_finite.
  assert (Hfin : Qle_bool (2 ^ 1024) (Qabs (- y)) = false).
  { destruct (Qle_bool (2 ^ 1024) (Qabs (- y))) eqn:E; [|reflexivity].
    apply Qle_bool_iff in E. rewrite Qabs_opp, Qabs_pos in E by exact Hn. lra. }
  rewrite Hfin. cbn [negb option_map].
  rewrite trunc_nonpos by lra.
  split; [reflexivity|]. split; lra.
Qed.

(** The percentage of a cosine score: from -100 to 99, of the sign of the
    score. *)
Lemma match_percent_signed (s : Q) :
  -1 <= s -> s <= 1 ->
  exists m, match_percent s = Some m
            /\ (-100 <= m <= 99)%Z
            /\ (0 <= s -> (0 <= m)%Z)
            /\ (s <= 0 -> (m <= 0)%Z).
Proof.
  intros H1 H2.
  destruct (Qlt_le_dec s 0) as [Hneg|Hpos].
  - destruct (@percent_product_neg s H1 ltac:(lra)) as (E & Hy0 & Hy1).
    unfold match_percent. rewrite E. cbn [option_map].
    set (y := rnd (100 * s)) in *.
    assert (Hc0 : (Qceiling y <= 0)%Z).
    { change 0%Z with (Qceiling 0). now apply Qceiling_resp_le. }
    assert (Hc1 : (-100 <= Qceiling y)%Z).
    { pose proof (Qle_ceiling y) as Hc.
      assert (Hlt : inject_Z (-101) < inject_Z (Qceiling y)).
      { change (inject_Z (-101)) with (-101). lra. }
      rewrite <- Zlt_Qlt in Hlt. lia. }
    exists (Z.min (Qceiling y) 99). split; [reflexivity|].
    split; [lia|]. split; [intros; lra | intros; lia].
  - destruct (percent_product Hpos H2) as [E Hf].
    unfold match_percent. rewrite E. cbn [option_map].
    exists (Z.min (Qfloor (rnd (100 * s))) 99). split; [reflexivity|].
    split; [lia|]. split; [intros; lia|].
    intros Hs0.
    assert (Ex : 100 * s == 0) by lra.
    rewrite (rnd_zero Ex). cbn. lia.
Qed.

End SignedScores.

(** X13. For matches whose scores are cosines, between -1 and 1,
    [_format_cards] returns one card per match, in the order of the
    matches and with the provider's id, name, rating and minimum price; the
    percentage is between -100 and 99, never 100, and it is not clamped at
    0: a negative score gives a percentage that is negative or 0.  A record
    without a badge gets the empty badge. *)
Theorem format_cards_of_cosines (matches : list scored) :
  Forall (fun m => (-1 <= snd m)%Q /\ (snd m <= 1)%Q) matches ->
  exists cards,
    _format_cards matches = Some cards
    /\ Forall2 (fun m c =>
                  card_id c = id (fst m) /\ card_name c = name (fst m)
                  /\ card_rating c = rating (fst m)
                  /\ card_price_min c = price_min (fst m)
                  /\ (badge (fst m) = None -> card_badge c = "")
                  /\ match_percent (snd m) = Some (match_score c)
                  /\ (-100 <= match_score c <= 99)%Z
                  /\ ((snd m <= 0)%Q -> (match_score c <= 0)%Z)
                  /\ ((0 <= snd m)%Q -> (0 <= match_score c)%Z))
               matches cards.
Proof.
  induction matches as [|[a s] rest IH]; intros Hall.
  - exists []. split; [reflexivity | constructor].
  - inversion Hall as [|? ? [H1 H2] Hrest]; subst. cbn [snd] in H1, H2.
    destruct (IH Hrest) as (cards & Hc & Hf).
    destruct (match_percent_signed H1 H2) as (m & Hm & Hr & Hp & Hn).
    cbn [_format_cards]. rewrite Hm, Hc.
    eexists. split; [reflexivity|].
    constructor; [|exact Hf].
    cbn [fst snd card_id card_name card_rating card_price_min card_badge
         match_score].
    repeat split; try assumption; try lia.
    intros Hb. now rewrite Hb.
Qed.

Lemma format_cards_of_cosines_witness :
  exists cards,
    _format_cards [(singer_3, 0.9%Q); (magician_5, (-0.25)%Q)] = Some cards
    /\ List.length cards = 2%nat.
Proof.
  destruct (@format_cards_of_cosines [(singer_3, 0.9%Q); (magician_5, (-0.25)%Q)])
    as (cards & Hc & Hf).
  - repeat constructor; vm_compute; discriminate.
  - exists cards. split; [exact Hc|].
    apply Forall2_length in Hf. now rewrite <- Hf.
Defined.

(* ================================================================= *)
(** ** The user database *)

Lemma find_app_none {A} (f : A -> bool) (l l' : list A) :
  find f l = None -> find f (l ++ l') = find f l'.
Proof.
  induction l as [|x l IH]; cbn [find app]; [reflexivity|].
  destruct (f x); [discriminate | exact IH].
Qed.

Lemma find_app_some {A} (f : A -> bool) (l l' : list A) (x : A) :
  find f l = Some x -> find f (l ++ l') = Some x.
Proof.
  induction l as [|y l IH]; cbn [find app]; [discriminate|].
  destruct (f y); [tauto | exact IH].
Qed.

Lemma fold_max_ge (xs : list Z) (x0 : Z) :
  (x0 <= fold_left Z.max xs x0)%Z
  /\ forall x, In x xs -> (x <= fold_left Z.max xs x0)%Z.
Proof.
  revert x0. induction xs as [|y xs IH]; intros x0; cbn [fold_left].
  - split; [lia | intros x []].
  - destruct (IH (Z.max x0 y)) as [H0 Hin]. split; [lia|].
    intros x [<-|Hx]; [lia | now apply Hin].
Qed.

Lemma max_default_ge (xs : list Z) (d x : Z) :
  In x xs -> (x <= max_default xs d)%Z.
Proof.
  destruct xs as [|y xs]; [intros []|]. cbn [max_default].
  destruct (fold_max_ge xs y) as [H0 Hin].
  intros [<-|Hx]; [exact H0 | now apply Hin].
Qed.

Lemma find_user_none (users : list user) (email : string) :
  find_user_by_email users email = None <->
  forall u, In u users -> lower (user_email u) <> lower email.
Proof.
  unfold find_user_by_email. rewrite find_none_iff.
  split; intros H u Hu; specialize (H u Hu); cbv beta in *.
  - intros E. rewrite E, String.eqb_refl in H. discriminate H.
  - destruct (String.eqb_spec (lower (user_email u)) (lower email)); congruence.
Qed.

Section UserFacts.
Variable hash_password : string -> string.

Lemma register_user_cases (users : list user) (name email password role now : string) :
  let out := register_user hash_password users name email password role now in
  (find_user_by_email users email = None ->
   exists u,
     out = (users ++ [u], (Some u, None))
     /\ user_id u = (max_default (map user_id users) 0 + 1)%Z
     /\ user_email u = email /\ user_name u = name /\ user_role u = role
     /\ user_password u = hash_password password)
  /\ (find_user_by_email users email <> None ->
      out = (users, (None, Some "An account with this email already exists."))).
Proof.
  cbn zeta. unfold register_user.
  destruct (find_user_by_email users email) as [v|]; split; intros H;
    try congruence.
  eexists. split; [reflexivity|]. repeat split.
Qed.

(** X14. Registration and login round trip.  After a successful
    registration the same e-mail, in any letter case, logs in with the same
    password and gets the registered record back; another password logs in
    only if it has the same hash, and is otherwise refused as incorrect. *)
Theorem register_then_login (users users' : list user)
        (name email password role now : string) (u : user) :
  register_user hash_password users name email password role now
  = (users', (Some u, None)) ->
  (forall email', lower email' = lower email ->
     login_user hash_password users' email' password = (Some u, None))
  /\ (forall password',
        hash_password password' <> hash_password password ->
        login_user hash_password users' email password'
        = (None, Some "Incorrect password. Please try again.")).
Proof.
  intros Hreg. unfold register_user in Hreg.
  destruct (find_user_by_email users email) as [v|] eqn:Hfind; [discriminate|].
  injection Hreg as <- <-.
  set (u := User _ name email (hash_password password) role now _).
  assert (Hself : forall email', lower email' = lower email ->
            find_user_by_email (users ++ [u]) email' = Some u).
  { intros email' He. unfold find_user_by_email in *.
    rewrite He, find_app_none by exact Hfind.
    cbn [find user_email u]. now rewrite String.eqb_refl. }
  split.
  - intros email' He. unfold login_user. rewrite (Hself email' He).
    cbn [user_password u]. now rewrite String.eqb_refl.
  - intros password' Hne. unfold login_user. rewrite (Hself email eq_refl).
    cbn [user_password u].
    destruct (String.eqb_spec (hash_password password) (hash_password password'));
      [congruence | reflexivity].
Qed.

(** X15. An e-mail registers once.  When some record already has the
    e-mail, up to letter case, registration is refused with the
    already-exists message and the users file is left as it was; otherwise
    exactly one record is appended. *)
Theorem register_rejects_known_email (users : list user)
        (name email password role now : string) :
  let out := register_user hash_password users name email password role now in
  ((exists v, In v users /\ lower (user_email v) = lower email) ->
   out = (users, (None, Some "An account with this email already exists.")))
  /\ ((forall v, In v users -> lower (user_email v) <> lower email) ->
      exists u, out = (users ++ [u], (Some u, None)) /\ user_email u = email).
Proof.
  cbn zeta.
  destruct (register_user_cases users name email password role now) as [Hnew Hold].
  cbn zeta in Hnew, Hold. split.
  - intros (v & Hv & He). apply Hold. intros Hnone.
    rewrite find_user_none in Hnone. exact (Hnone v Hv He).
  - intros Hnone. apply find_user_none in Hnone.
    destruct (Hnew Hnone) as (u & Hout & _ & He & _). now exists u.
Qed.

(** X16. Registration keeps the users file well formed: identifiers stay
    pairwise distinct and e-mails stay pairwise distinct up to letter case,
    whether the registration succeeds or not; a new identifier is above
    every identifier in use, and is 1 in an empty file. *)
Theorem register_keeps_invariants (users : list user)
        (name email password role now : string) :
  let out := register_user hash_password users name email password role now in
  (unique_ids users -> unique_ids (fst out))
  /\ (unique_emails users -> unique_emails (fst out))
  /\ (forall u, fst (snd out) = Some u ->
        (forall v, In v users -> (user_id v < user_id u)%Z)
        /\ (users = [] -> user_id u = 1%Z)).
Proof.
  cbn zeta.
  destruct (register_user_cases users name email password role now) as [Hnew Hold].
  cbn zeta in Hnew, Hold.
  destruct (find_user_by_email users email) as [v|] eqn:Hfind.
  - rewrite Hold by discriminate. cbn [fst snd].
    repeat split; try tauto; discriminate.
  - destruct (Hnew eq_refl) as (u & -> & Hid & He & _). cbn [fst snd].
    assert (Hlt : forall v, In v users -> (user_id v < user_id u)%Z).
    { intros v Hv. rewrite Hid.
      pose proof (@max_default_ge (map user_id users) 0 (user_id v)
                    (in_map user_id _ _ Hv)). lia. }
    split; [|split].
    + unfold unique_ids. intros Hnd. rewrite map_app. cbn [map].
      apply NoDup_app; [exact Hnd | repeat constructor; intros [] |].
      intros i Hi [<-|[]]. apply in_map_iff in Hi as (v & Hvi & Hv).
      specialize (Hlt v Hv). lia.
    + unfold unique_emails. intros Hnd. rewrite map_app. cbn [map].
      apply NoDup_app; [exact Hnd | repeat constructor; intros [] |].
      intros e Hi [<-|[]]. apply in_map_iff in Hi as (v & Hve & Hv).
      rewrite find_user_none in Hfind. apply (Hfind v Hv). now rewrite He in Hve.
    + intros u' Hu'. injection Hu' as <-. split; [exact Hlt|].
      intros ->. exact Hid.
Qed.

(** X17. With e-mails pairwise distinct up to letter case, every record of
    the users file can log in: its e-mail and a password with the stored
    hash give that record back; and an e-mail that no record has is
    reported as unknown. *)
Theorem login_finds_registered (users : list user) (u : user) (password : string) :
  unique_emails users -> In u users ->
  user_password u = hash_password password ->
  login_user hash_password users (user_email u) password = (Some u, None)
  /\ (forall email,
        (forall v, In v users -> lower (user_email v) <> lower email) ->
        login_user hash_password users email password
        = (None, Some "No account found with this email.")).
Proof.
  intros Hnd Hu Hpw. split.
  - assert (Hfind : find_user_by_email users (user_email u) = Some u).
    { unfold find_user_by_email, unique_emails in *.
      induction users as [|v users IH]; [destruct Hu|].
      cbn [find map] in *. inversion Hnd as [|? ? Hnotin Hnd']; subst.
      destruct Hu as [->|Hu].
      - now rewrite String.eqb_refl.
      - destruct (String.eqb_spec (lower (user_email v)) (lower (user_email u)))
          as [E|_]; [|now apply IH].
        exfalso. apply Hnotin. rewrite E.
        now apply (in_map (fun u => lower (user_email u))). }
    unfold login_user. rewrite Hfind, Hpw. now rewrite String.eqb_refl.
  - intros email Hnone. apply find_user_none in Hnone.
    unfold login_user. now rewrite Hnone.
Qed.

End UserFacts.

Lemma register_then_login_witness :
  login_user (String.append "h:")
    (fst (register_user (String.append "h:") [] "Ada" "Ada@Example.org" "secret"
                        "hirer" "2024-01-01T00:00:00"))
    "ada@example.ORG" "secret"
  = (Some (User 1 "Ada" "Ada@Example.org" "h:secret" "hirer"
                "2024-01-01T00:00:00" "https://i.pravatar.cc/150?img=51"), None).
Proof.
  apply (proj1 (@register_then_login (String.append "h:") [] _ "Ada"
                  "Ada@Example.org" "secret" "hirer" "2024-01-01T00:00:00" _
                  eq_refl)).
  reflexivity.
Defined.

Lemma register_rejects_known_email_witness :
  register_user (String.append "h:")
    [User 1 "Ada" "Ada@Example.org" "h:secret" "hirer" "t" "a"]
    "Eve" "ADA@example.org" "x" "artist" "t2"
  = ([User 1 "Ada" "Ada@Example.org" "h:secret" "hirer" "t" "a"],
     (None, Some "An account with this email already exists.")).
Proof.
  apply (proj1 (@register_rejects_known_email (String.append "h:")
                  [User 1 "Ada" "Ada@Example.org" "h:secret" "hirer" "t" "a"]
                  "Eve" "ADA@example.org" "x" "artist" "t2")).
  eexists. split; [left; reflexivity | reflexivity].
Defined.

Lemma register_keeps_invariants_witness :
  unique_ids
    (fst (register_user (String.append "h:")
            [User 7 "Ada" "ada@example.org" "h:secret" "hirer" "t" "a"]
            "Bob" "bob@example.org" "pw" "artist" "t2")).
Proof.
  apply (proj1 (@register_keeps_invariants (String.append "h:")
                  [User 7 "Ada" "ada@example.org" "h:secret" "hirer" "t" "a"]
                  "Bob" "bob@example.org" "pw" "artist" "t2")).
  repeat constructor. intros [].
Defined.

Lemma login_finds_registered_witness :
  login_user (String.append "h:")
    [User 1 "Ada" "ada@example.org" "h:secret" "hirer" "t" "a";
     User 2 "Bob" "bob@example.org" "h:pw" "artist" "t" "b"]
    "bob@example.org" "pw"
  = (Some (User 2 "Bob" "bob@example.org" "h:pw" "artist" "t" "b"), None).
Proof.
  apply (@login_finds_registered (String.append "h:")
           [User 1 "Ada" "ada@example.org" "h:secret" "hirer" "t" "a";
            User 2 "Bob" "bob@example.org" "h:pw" "artist" "t" "b"]
           (User 2 "Bob" "bob@example.org" "h:pw" "artist" "t" "b") "pw").
  - repeat constructor; cbn; intuition discriminate.
  - right. left. reflexivity.
  - reflexivity.
Defined.

(* ================================================================= *)
(** ** Profile creation *)

Lemma split_on_head (sep : ascii) (lo rest : string) :
  free_of (fun c => Ascii.eqb c sep) lo ->
  split_on sep (lo ++ String sep rest)%string = lo :: split_on sep rest.
Proof.
  induction lo as [|c lo IH]; intros Hfree; cbn [String.append split_on].
  - now rewrite Ascii.eqb_refl.
  - rewrite (Hfree c) by (left; reflexivity).
    rewrite IH; [reflexivity|].
    intros d Hd. apply Hfree. now right.
Qed.

Lemma split_on_whole (sep : ascii) (s : string) :
  free_of (fun c => Ascii.eqb c sep) s -> split_on sep s = [s].
Proof.
  induction s as [|c s IH]; intros Hfree; cbn [split_on]; [reflexivity|].
  rewrite (Hfree c) by (left; reflexivity).
  rewrite IH; [reflexivity|].
  intros d Hd. apply Hfree. now right.
Qed.

Lemma split_on_parts (sep : ascii) (s : string) :
  Forall (fun p => free_of (fun c => Ascii.eqb c sep) p
                   /\ (String.length p <= String.length s)%nat)
         (split_on sep s).
Proof.
  induction s as [|c s IH]; cbn [split_on].
  - constructor; [|constructor]. split; [intros c []|cbn; lia].
  - destruct (Ascii.eqb c sep) eqn:Ec.
    + constructor; [split; [intros d []|cbn; lia]|].
      eapply Forall_impl; [|exact IH].
      intros p [Hp Hl]. split; [exact Hp | cbn [String.length]; lia].
    + destruct (split_on sep s) as [|w ws].
      * constructor; [|constructor]. split; [|cbn; lia].
        intros d [<-|[]]. exact Ec.
      * inversion IH as [|? ? [Hw Hl] Hws]; subst. constructor.
        -- split; [|cbn [String.length]; lia].
           intros d [<-|Hd]; [exact Ec | now apply Hw].
        -- eapply Forall_impl; [|exact Hws].
           intros p [Hp Hl']. split; [exact Hp | cbn [String.length]; lia].
Qed.

Lemma isdigit_free (sep : ascii) (s : string) :
  is_digit sep = false -> isdigit s = true ->
  free_of (fun c => Ascii.eqb c sep) s.
Proof.
  intros Hsep Hs c Hc. unfold isdigit in Hs.
  destruct s as [|c0 s0]; [discriminate|].
  rewrite forallb_forall in Hs. specialize (Hs c Hc).
  destruct (Ascii.eqb_spec c sep) as [->|_]; [congruence | reflexivity].
Qed.

Lemma int_of_digits_nonneg (s : list ascii) : (0 <= int_of_digits s)%Z.
Proof.
  unfold int_of_digits.
  assert (H : forall acc, (0 <= acc)%Z ->
            (0 <= fold_left (fun acc c => 10 * acc + digit_val c) s acc)%Z).
  { induction s as [|c s IH]; intros acc Hacc; cbn [fold_left]; [exact Hacc|].
    apply IH. unfold digit_val. lia. }
  apply H. lia.
Qed.

Lemma fold_max_next (a : artist) (rest : list artist) :
  forall b, In b (a :: rest) ->
  (id b < fold_left Z.max (map id rest) (id a) + 1)%Z.
Proof.
  intros b Hb. destruct (fold_max_ge (map id rest) (id a)) as [H0 Hin].
  destruct Hb as [<-|Hb]; [lia|].
  specialize (Hin (id b) (in_map id _ _ Hb)). lia.
Qed.

Lemma next_artist_id_fresh (artists : list artist) (b : artist) :
  In b artists -> (id b < next_artist_id artists)%Z.
Proof.
  destruct artists as [|a rest]; [intros []|].
  cbn [next_artist_id]. apply fold_max_next.
Qed.

Section ProfileFacts.
Variable int_max_str_digits : nat.

Lemma int_of_str_cases (p : string) :
  (int_of_str int_max_str_digits p = None
   /\ (0 < int_max_str_digits)%nat
   /\ (Nat.max 640 int_max_str_digits < String.length p)%nat)
  \/ (int_of_str int_max_str_digits p = Some (int_of_digits (list_ascii_of_string p))
      /\ (int_max_str_digits = 0%nat
          \/ (String.length p <= Nat.max 640 int_max_str_digits)%nat)).
Proof.
  unfold int_of_str.
  destruct (Nat.ltb_spec 0 int_max_str_digits);
    destruct (Nat.ltb_spec 640 (String.length p));
    destruct (Nat.ltb_spec int_max_str_digits (String.length p));
    cbn [andb]; (left; split; [reflexivity|lia]) || (right; split; [reflexivity|lia]).
Qed.

Lemma price_part_some (parts : list string) (i : nat) (v : Z) :
  price_part int_max_str_digits parts i = Some v -> (0 <= v)%Z.
Proof.
  unfold price_part.
  destruct (nth_error parts i) as [p|]; [|intros H; injection H as <-; lia].
  destruct (isdigit p); [|intros H; injection H as <-; lia].
  destruct (int_of_str_cases p) as [[-> _]|[-> _]]; [discriminate|].
  intros H. injection H as <-. apply int_of_digits_nonneg.
Qed.

Lemma price_part_returns (s : string) (i : nat) :
  int_max_str_digits = 0%nat
  \/ (String.length s <= Nat.max 640 int_max_str_digits)%nat ->
  exists v, price_part int_max_str_digits (split_on "-" s) i = Some v.
Proof.
  intros Hlim. unfold price_part.
  destruct (nth_error (split_on "-" s) i) as [p|] eqn:Hp; [|now exists 0%Z].
  destruct (isdigit p); [|now exists 0%Z].
  apply nth_error_In in Hp.
  pose proof (split_on_parts "-" s) as Hparts.
  rewrite Forall_forall in Hparts. destruct (Hparts p Hp) as [_ Hlen].
  destruct (int_of_str_cases p) as [(_ & H0 & Hbig)|[-> _]]; [lia|].
  eexists. reflexivity.
Qed.

Lemma price_part_digits (parts : list string) (i : nat) (p : string) :
  nth_error parts i = Some p -> isdigit p = true ->
  forall v, price_part int_max_str_digits parts i = Some v ->
  v = int_of_digits (list_ascii_of_string p).
Proof.
  intros Hn Hd v. unfold price_part. rewrite Hn, Hd.
  destruct (int_of_str_cases p) as [[-> _]|[-> _]]; [discriminate|].
  now intros H; injection H as <-.
Qed.

Lemma parse_price_range_reads_aux (s : string) :
  (int_max_str_digits = 0%nat
   \/ (String.length s <= Nat.max 640 int_max_str_digits)%nat ->
   exists pr, parse_price_range int_max_str_digits s = Some pr)
  /\ forall pmin pmax,
       parse_price_range int_max_str_digits s = Some (pmin, pmax) ->
       (0 <= pmin)%Z /\ (0 <= pmax)%Z.
Proof.
  split.
  - intros Hlim. unfold parse_price_range. cbn zeta.
    destruct (price_part_returns s 0 Hlim) as [a ->].
    destruct (price_part_returns s 1 Hlim) as [b ->].
    now eexists.
  - intros pmin pmax. unfold parse_price_range. cbn zeta.
    destruct (price_part int_max_str_digits (split_on "-" s) 0) as [a|] eqn:Ha;
      [|discriminate].
    destruct (price_part int_max_str_digits (split_on "-" s) 1) as [b|] eqn:Hb;
      [|discriminate].
    intros H. injection H as <- <-.
    split; [exact (price_part_some _ _ Ha) | exact (price_part_some _ _ Hb)].
Qed.

(** X18. The price range of a new profile, for an ASCII field.  The field
    is read as [min-max]: when the conversion does not raise, which it
    cannot for a field within the interpreter's digit limit, neither price
    is negative; two runs of digits around the first hyphen give those two
    numbers, whatever follows a second hyphen; without a hyphen the maximum
    is 0; and a first part that is not all digits, a signed number or a
    number with spaces around it, counts as 0. *)
Theorem parse_price_range_reads (s : string) :
  is_ascii s = true ->
  (int_max_str_digits = 0%nat
   \/ (String.length s <= Nat.max 640 int_max_str_digits)%nat ->
   exists pr, parse_price_range int_max_str_digits s = Some pr)
  /\ forall pmin pmax,
       parse_price_range int_max_str_digits s = Some (pmin, pmax) ->
       (0 <= pmin)%Z /\ (0 <= pmax)%Z
       /\ (forall lo hi tail : string,
             s = (lo ++ "-" ++ hi ++ tail)%string ->
             isdigit lo = true -> isdigit hi = true ->
             tail = "" \/ (exists t, tail = String "-" t) ->
             pmin = int_of_digits (list_ascii_of_string lo)
             /\ pmax = int_of_digits (list_ascii_of_string hi))
       /\ (free_of (fun c => Ascii.eqb c "-") s -> pmax = 0%Z)
       /\ (forall lo rest : string,
             s = (lo ++ "-" ++ rest)%string ->
             free_of (fun c => Ascii.eqb c "-") lo -> isdigit lo = false ->
             pmin = 0%Z).
Proof.
  intros _.
  split; [exact (proj1 (parse_price_range_reads_aux s))|].
  intros pmin pmax Hpr.
  destruct (proj2 (parse_price_range_reads_aux s) _ _ Hpr) as [Hmin Hmax].
  split; [exact Hmin|]. split; [exact Hmax|].
  revert Hpr. unfold parse_price_range. cbn zeta.
  destruct (price_part int_max_str_digits (split_on "-" s) 0) as [a|] eqn:Ha;
    [|discriminate].
  destruct (price_part int_max_str_digits (split_on "-" s) 1) as [b|] eqn:Hb;
    [|discriminate].
  intros H. injection H as <- <-. clear Hmin Hmax.
  split; [|split].
  - intros lo hi tail -> Hlo Hhi Htail.
      assert (Hparts : exists more,
                split_on "-" (lo ++ "-" ++ hi ++ tail)%string = lo :: hi :: more).
      { change (lo ++ "-" ++ hi ++ tail)%string with (lo ++ String "-" (hi ++ tail))%string.
        rewrite split_on_head by (now apply isdigit_free).
        destruct Htail as [->|[t ->]].
        - exists [].
          assert (E : (hi ++ "")%string = hi).
          { clear. induction hi as [|c hi IH]; cbn; [reflexivity | now rewrite IH]. }
          rewrite E. rewrite split_on_whole; [reflexivity|].
          now apply isdigit_free.
        - rewrite split_on_head by (now apply isdigit_free).
          now eexists. }
      destruct Hparts as [more Hparts]. rewrite Hparts in Ha, Hb. split.
    + exact (@price_part_digits (lo :: hi :: more) 0 lo eq_refl Hlo _ Ha).
    + exact (@price_part_digits (lo :: hi :: more) 1 hi eq_refl Hhi _ Hb).
  - intros Hfree. rewrite (@split_on_whole _ _ Hfree) in Hb.
      cbn in Hb. now injection Hb as <-.
  - intros lo rest -> Hfree Hlo.
      change (lo ++ "-" ++ rest)%string with (lo ++ String "-" rest)%string in Ha.
      rewrite split_on_head in Ha by exact Hfree.
      unfold price_part in Ha. cbn [nth_error] in Ha. rewrite Hlo in Ha.
      now injection Ha as <-.
Qed.

Lemma build_profile_inv (artists : list artist) (form : dict string)
      (artists' : list artist) :
  build_profile int_max_str_digits artists form = Some artists' ->
  exists a,
    artists' = artists ++ [a]
    /\ id a = next_artist_id artists
    /\ rating a = 0.0%Q /\ badge a = Some "New Artist" /\ event_types a = []
    /\ name a = form_get form "name" ""
    /\ skills a = parse_skills (form_get form "skills" "")
    /\ parse_price_range int_max_str_digits (form_get form "price_range" "0-0")
       = Some (price_min a, price_max a).
Proof.
  unfold build_profile. cbn zeta.
  destruct (parse_price_range int_max_str_digits (form_get form "price_range" "0-0"))
    as [[pmin pmax]|]; [|discriminate].
  intros H. injection H as <-. eexists. split; [reflexivity|].
  cbn [id rating badge event_types name skills price_min price_max].
  repeat split.
Qed.

(** X19. A new profile is appended under a fresh identifier.  When the
    request succeeds, the catalog saved is the old one followed by one new
    record; its identifier is above every identifier in use, and 1 in an
    empty catalog, so identifiers that were pairwise distinct stay so; the
    page the request redirects to finds the new record, and every record
    that could be looked up before is found as before.  The request
    succeeds whenever the price field is ASCII and within the digit
    limit. *)
Theorem build_profile_appends (artists : list artist) (form : dict string) :
  (is_ascii (form_get form "price_range" "0-0") = true ->
   int_max_str_digits = 0%nat
   \/ (String.length (form_get form "price_range" "0-0")
       <= Nat.max 640 int_max_str_digits)%nat ->
   exists artists', build_profile int_max_str_digits artists form = Some artists')
  /\ forall artists',
       build_profile int_max_str_digits artists form = Some artists' ->
       exists a,
         artists' = artists ++ [a]
         /\ id a = next_artist_id artists
         /\ (forall b, In b artists -> (id b < id a)%Z)
         /\ (artists = [] -> id a = 1%Z)
         /\ (0 <= price_min a)%Z /\ (0 <= price_max a)%Z
         /\ find_artist artists' (id a) = Some a
         /\ (forall i b, find_artist artists i = Some b ->
                         find_artist artists' i = Some b)
         /\ (NoDup (map id artists) -> NoDup (map id artists')).
Proof.
  split.
  - intros _ Hlim. unfold build_profile. cbn zeta.
    destruct (proj1 (parse_price_range_reads_aux _) Hlim) as [[pmin pmax] ->].
    now eexists.
  - intros artists' H. apply build_profile_inv in H.
    destruct H as (a & -> & Hid & _ & _ & _ & _ & _ & Hpr).
    exists a. split; [reflexivity|]. split; [exact Hid|].
    assert (Hfresh : forall b, In b artists -> (id b < id a)%Z).
    { intros b Hb. rewrite Hid. now apply next_artist_id_fresh. }
    split; [exact Hfresh|].
    split; [intros ->; exact Hid|].
    destruct (proj2 (parse_price_range_reads_aux _) _ _ Hpr) as (Hmin & Hmax).
    split; [exact Hmin|]. split; [exact Hmax|].
    split; [|split].
    + unfold find_artist. rewrite find_app_none.
      * cbn [find]. now rewrite Z.eqb_refl.
      * apply find_none_iff. intros b Hb. specialize (Hfresh b Hb).
        cbv beta. lia.
    + intros i b Hf. unfold find_artist in *. now apply find_app_some.
    + intros Hnd. rewrite map_app. cbn [map].
      apply NoDup_app; [exact Hnd | repeat constructor; intros [] |].
      intros i Hi [<-|[]]. apply in_map_iff in Hi as (b & Hbi & Hb).
      specialize (Hfresh b Hb). lia.
Qed.

End ProfileFacts.

Lemma parse_price_range_reads_witness :
  exists pr, parse_price_range 4300 "500-2000" = Some pr.
Proof.
  apply (proj1 (@parse_price_range_reads 4300 "500-2000" eq_refl)).
  right. cbn. lia.
Defined.

Lemma build_profile_appends_witness :
  exists artists',
    build_profile 4300 sample_catalog
      [("name", "Nia"); ("price_range", "300-900"); ("skills", "harp, , voice")]
    = Some artists'.
Proof.
  apply (proj1 (build_profile_appends 4300 sample_catalog
                  [("name", "Nia"); ("price_range", "300-900");
                   ("skills", "harp, , voice")])); [reflexivity|].
  right. cbn. lia.
Defined.









(** X21. The landing page features at most six providers, each of the
    catalog and rated 4.8 or better, in catalog order; a profile that has
    just been created is rated 0.0 and leaves the featured list as it
    was. *)
Theorem featured_at_most_six (artists : list artist) :
  (List.length (featured artists) <= 6)%nat
  /\ Forall (fun a => In a artists /\ (flt 4.8 <= rating a)%Q) (featured artists)
  /\ (exists keep, featured artists = firstn 6 (filter keep artists))
  /\ forall limit form artists',
       build_profile limit artists form = Some artists' ->
       featured artists' = featured artists.
Proof.
  split; [|split; [|split]].
  - unfold featured. rewrite length_firstn. lia.
  - unfold featured. rewrite Forall_forall. intros a Ha.
    apply firstn_in in Ha. apply filter_In in Ha as [Ha Hr].
    split; [exact Ha | now apply Qle_bool_iff].
  - now eexists.
  - intros limit form artists' H. apply build_profile_inv in H.
    destruct H as (a & -> & _ & Hr & _). unfold featured.
    rewrite filter_app. cbn [filter]. rewrite Hr.
    replace (Qle_bool (flt 4.8) 0.0) with false by (vm_compute; reflexivity).
    now rewrite app_nil_r.
Qed.

Lemma featured_at_most_six_witness :
  featured (match build_profile 4300 sample_catalog
                   [("name", "Nia"); ("price_range", "300-900")] with
            | Some saved => saved
            | None => []
            end)
  = featured sample_catalog.
Proof.
  apply (proj2 (proj2 (proj2 (featured_at_most_six sample_catalog))) 4300%nat
           [("name", "Nia"); ("price_range", "300-900")]).
  vm_compute. reflexivity.
Defined.

(* ================================================================= *)
(** ** The chat routes *)

Lemma plan_path_eq (message : string) :
  plan_path message
  = any_in event_kw (lower message)
    && is_some (extract_budget_from_text message).
Proof.
  unfold plan_path. rewrite is_event_plan_request_eq.
  destruct (extract_budget_from_text message) as [b|] eqn:Hb.
  - pose proof (extract_budget_ge_100 _ Hb) as Hge. cbn [is_some].
    destruct (Z.eqb_spec b 0) as [->|_]; [lia|]. cbn [negb].
    now rewrite orb_true_r, !andb_true_r.
  - cbn [is_some]. now rewrite !andb_false_r.
Qed.

Lemma plan_basic (catalog : option (list artist)) (ev_name : string) (B : Z)
      (query : string) (p : event_plan) :
  generate_event_plan catalog ev_name B query = Some p ->
  event_name p = ev_name /\ total_budget p = B
  /\ (List.length (artists p) <= 3)%nat.
Proof.
  intros Hp. apply generate_event_plan_inv in Hp. cbn zeta in Hp.
  destruct Hp as (tpl & tl & tps & pcats & bd & dflt & all & _ & _ & _ & _ & _ & _ & _ & ->).
  unfold assemble_plan. cbn [event_name total_budget artists].
  repeat split. apply match_artists_length.
Qed.

Lemma rag_search_length {Vec} (env : rag_env Vec) (query : string) (top_k : Z)
      (res : list scored) (f : filters) :
  (0 <= top_k)%Z ->
  rag_search env query top_k = Some (res, f) ->
  (List.length res <= Z.to_nat top_k)%nat.
Proof.
  intros Hk. unfold rag_search.
  destruct (rag_search_try env query top_k) as [[res' f']|] eqn:Htry.
  - intros H. injection H as -> ->.
    unfold rag_search_try in Htry.
    destruct (encode env query) as [qvec|]; [|discriminate].
    destruct (rank env qvec top_k) as [results|]; [|discriminate].
    injection Htry as <- <-. now apply select_results_length.
  - unfold rag_search_except.
    destruct (load_artists env) as [catalog|]; [|discriminate].
    intros H. injection H as <- <-.
    rewrite length_map, py_prefix_nonneg by exact Hk.
    rewrite length_firstn. lia.
Qed.

Lemma format_cards_length (matches : list scored) (cards : list card) :
  _format_cards matches = Some cards -> List.length cards = List.length matches.
Proof.
  intros H. apply format_cards_scores in H.
  symmetry. exact (Forall2_length H).
Qed.

Lemma half_is_fifty : match_percent 0.5 = Some 50%Z.
Proof. vm_compute. reflexivity. Qed.

Lemma format_cards_half (l : list artist) :
  exists cards,
    _format_cards (map (fun a => (a, 0.5%Q)) l) = Some cards
    /\ Forall2 (fun a c => card_id c = id a /\ card_name c = name a
                           /\ match_score c = 50%Z) l cards.
Proof.
  induction l as [|a l (cards & E & IH)]; cbn [map _format_cards].
  - exists []. split; [reflexivity | constructor].
  - rewrite half_is_fifty, E. eexists. split; [reflexivity|].
    constructor; [|exact IH]. cbn [card_id card_name match_score]. repeat split.
Qed.

Lemma rag_search_degraded {Vec} (env : rag_env Vec) (query : string) (top_k : Z)
      (catalog : list artist) :
  (0 <= top_k)%Z ->
  rag_search_try env query top_k = None -> load_artists env = Some catalog ->
  rag_search env query top_k
  = Some (map (fun a => (a, 0.5%Q)) (firstn (Z.to_nat top_k) catalog), no_filters).
Proof.
  intros Hk Htry Hload. unfold rag_search, rag_search_except.
  rewrite Htry, Hload. now rewrite py_prefix_nonneg by exact Hk.
Qed.

Lemma strip_budget_nonempty (m : string) (b : Z) :
  extract_budget_from_text m = Some b -> nonempty m = true.
Proof.
  destruct m; [|reflexivity]. vm_compute. discriminate.
Qed.

Section ChatFacts.
Variable Vec : Type.
Variable env : rag_env Vec.
Variable extract_event_name : string -> string.

(** X22. Which path [plan_chat] takes.  A blank message is asked for a
    description.  The answer is an event plan only when the stripped
    message holds an event keyword and a budget can be extracted from it:
    the plan is then for that budget, at least 100, under the name
    extracted, with at most three providers.  The answer is a list of
    cards, at most three, only when the event keyword or the budget is
    missing.  With both present, a budget up to [2^1000], a readable
    catalog and a message of at most 640 characters, to which no digit
    limit of [int] applies, the answer is always a plan, never a search. *)
Theorem plan_chat_paths (raw_message : string) :
  let message := strip raw_message in
  let reply := plan_chat env extract_event_name raw_message in
  (message = "" -> reply = ReplyText "Please describe your event and budget!")
  /\ (forall p, reply = ReplyPlan p ->
        (exists w, In w event_kw /\ occurs_in w (lower message))
        /\ (exists b, extract_budget_from_text message = Some b
                      /\ (100 <= b)%Z /\ total_budget p = b)
        /\ event_name p = extract_event_name message
        /\ (List.length (artists p) <= 3)%nat)
  /\ (forall cards, reply = ReplyArtists cards ->
        (List.length cards <= 3)%nat
        /\ ((forall w, In w event_kw -> ~ occurs_in w (lower message))
            \/ extract_budget_from_text message = None))
  /\ (forall b catalog,
        (exists w, In w event_kw /\ occurs_in w (lower message)) ->
        extract_budget_from_text message = Some b -> (b <= 2 ^ 1000)%Z ->
        (String.length message <= 640)%nat ->
        load_artists env = Some catalog ->
        exists p, reply = ReplyPlan p).
Proof.
  cbn zeta. unfold plan_chat. cbn zeta.
  set (message := strip raw_message).
  split; [intros ->; reflexivity|].
  split; [|split].
  - intros p. destruct (nonempty message); cbn [negb]; [|discriminate].
    destruct (plan_path message) eqn:Hpath.
    + rewrite plan_path_eq in Hpath. apply andb_true_iff in Hpath as [Hkw Hb].
      apply any_in_occurs in Hkw.
      destruct (extract_budget_from_text message) as [b|] eqn:Eb; [|discriminate].
      destruct (generate_event_plan (load_artists env) (extract_event_name message)
                                    b message) as [p'|] eqn:Ep; [|discriminate].
      intros H. injection H as ->.
      destruct (plan_basic _ _ _ _ Ep) as (Hn & Ht & Hl).
      split; [exact Hkw|]. split; [|split; assumption].
      exists b. repeat split; [|exact Ht]. exact (extract_budget_ge_100 _ Eb).
    + destruct (rag_search env message 3) as [[matches f]|]; [|discriminate].
      destruct (_format_cards matches); discriminate.
  - intros cards. destruct (nonempty message); cbn [negb]; [|discriminate].
    destruct (plan_path message) eqn:Hpath.
    + destruct (extract_budget_from_text message) as [b|]; [|discriminate].
      destruct (generate_event_plan (load_artists env) (extract_event_name message)
                                    b message); discriminate.
    + destruct (rag_search env message 3) as [[matches f]|] eqn:Es; [|discriminate].
      destruct (_format_cards matches) as [cs|] eqn:Ec; [|discriminate].
      intros H. injection H as ->. split.
      * rewrite (format_cards_length _ Ec).
        apply (rag_search_length env message) in Es; [|lia].
        change (Z.to_nat 3) with 3%nat in Es. exact Es.
      * rewrite plan_path_eq in Hpath. apply andb_false_iff in Hpath as [Hkw|Hb].
        -- left. intros w Hw Ho.
           assert (any_in event_kw (lower message) = true)
             by (apply any_in_occurs; now exists w).
           congruence.
        -- right. destruct (extract_budget_from_text message); [discriminate|reflexivity].
  - intros b catalog Hkw Eb Hb _ Hload.
    rewrite (strip_budget_nonempty _ Eb). cbn [negb].
    rewrite plan_path_eq, Eb. apply any_in_occurs in Hkw. rewrite Hkw.
    cbn [is_some andb]. rewrite Hload.
    pose proof (extract_budget_ge_100 _ Eb) as Hge.
    destruct (@generate_event_plan_total catalog (extract_event_name message) b
                message ltac:(lia)) as [p ->].
    now exists p.
Qed.

(** X23. The cards of [ai_chat].  There are never more than three.  When
    the search itself fails, the embedding model or the index raising, and
    the catalog file is readable, the cards are the first three records of
    the catalog, in file order, every one shown with a match of 50 percent,
    whatever was asked. *)
Theorem ai_chat_cards (raw_message : string) :
  (List.length (ai_chat env raw_message) <= 3)%nat
  /\ forall catalog,
       strip raw_message <> "" ->
       rag_search_try env (strip raw_message) 3 = None ->
       load_artists env = Some catalog ->
       Forall2 (fun a c => card_id c = id a /\ card_name c = name a
                           /\ match_score c = 50%Z)
               (firstn 3 catalog) (ai_chat env raw_message).
Proof.
  unfold ai_chat. cbn zeta. set (query := strip raw_message). split.
  - destruct (nonempty query); cbn [negb]; [|cbn; lia].
    destruct (rag_search env query 3) as [[matches f]|] eqn:Es; [|cbn; lia].
    destruct (_format_cards matches) as [cs|] eqn:Ec; [|cbn; lia].
    rewrite (format_cards_length _ Ec).
    apply (rag_search_length env query) in Es; [|lia].
    change (Z.to_nat 3) with 3%nat in Es. exact Es.
  - intros catalog Hne Htry Hload.
    destruct query as [|c q] eqn:Eq; [congruence|]. cbn [nonempty negb].
    rewrite (@rag_search_degraded _ env _ 3 catalog ltac:(lia) Htry Hload).
    change (Z.to_nat 3) with 3%nat.
    destruct (format_cards_half (firstn 3 catalog)) as (cards & -> & H).
    exact H.
Qed.

End ChatFacts.

Lemma plan_chat_paths_witness :
  exists p,
    plan_chat offline_env (fun _ => "Gala Evening") "  a gala for 5k  "
    = ReplyPlan p.
Proof.
  apply (proj2 (proj2 (proj2 (@plan_chat_paths unit offline_env
                                 (fun _ => "Gala Evening") "  a gala for 5k  ")))
           5000%Z sample_catalog).
  - exists "gala". split; [simpl; tauto|]. now exists "a ", " for 5k".
  - vm_compute. reflexivity.
  - vm_compute. discriminate.
  - apply Nat.leb_le. vm_compute. reflexivity.
  - reflexivity.
Defined.

Lemma ai_chat_cards_witness :
  Forall2 (fun a c => card_id c = id a /\ card_name c = name a
                      /\ match_score c = 50%Z)
          (firstn 3 sample_catalog) (ai_chat offline_env "a jazz singer").
Proof.
  apply (proj2 (@ai_chat_cards unit offline_env "a jazz singer") sample_catalog).
  - vm_compute. discriminate.
  - reflexivity.
  - reflexivity.
Defined.
